(** * atelier_pytorch_omp: the patch sampler and the Gabor kernel generator

    A shallow embedding of the two classes of the workshop notebooks that
    carry logic of their own:

    - [Dataset] of [partie_2.ipynb] (patch sampler over a labelled raster);
    - [GaborFilters] of [partie_1.ipynb] (parametric convolution kernels).

    The notebooks are exercise sheets: several statements are left as
    [...] for the student.  Each elided statement is pointed out in the
    comment of the definition that models it ("Modelled from the spec:",
    with the sentence it is taken from); everything else follows the
    Python text line by line. *)

From Stdlib Require Import ZArith Lia Reals Lra.
From stdpp Require Import base option list gmap sets.
From stdpp Require Import sorting.

(** ** Python results and exceptions *)

Module Py.

(** The exception classes that matter for the two components.  The first
    three are the error kinds named by the specification; the last two are
    what the interpreter and the tensor library raise on their own. *)
Inductive exn : Type :=
| ConfigurationError
| IndexError
| ShapeError
| ZeroDivisionError
| RuntimeError.

#[global] Instance exn_eq_dec : EqDecision exn.
Proof. solve_decision. Defined.

Inductive result (A : Type) : Type :=
| Ok (a : A)
| Raise (e : exn).

Arguments Ok {A} a.
Arguments Raise {A} e.

#[global] Instance result_ret : MRet result := λ A a, Ok a.

#[global] Instance result_bind : MBind result := λ A B f m,
  match m with
  | Ok a => f a
  | Raise e => Raise e
  end.

#[global] Instance result_fmap : FMap result := λ A B f m,
  match m with
  | Ok a => Ok (f a)
  | Raise e => Raise e
  end.

Definition succeeds {A} (m : result A) : Prop := ∃ a, m = Ok a.

(** Python's [a // b] on two non-negative integers: floor division, and
    [ZeroDivisionError] on a zero divisor. *)
Definition floordiv (a b : nat) : result nat :=
  if decide (b = 0) then Raise ZeroDivisionError else Ok (a `div` b).

(** [l[lo:hi]] on a sequence of length [n]: negative bounds count from the
    end, then both are clamped to [0, n]. *)
Definition slice_bounds (n : nat) (lo hi : Z) : nat * nat :=
  let norm (i : Z) : Z :=
    if decide (i < 0)%Z then Z.max (i + Z.of_nat n) 0 else Z.min i (Z.of_nat n) in
  (Z.to_nat (norm lo), Z.to_nat (norm hi)).

Definition slice_len (n : nat) (lo hi : Z) : nat :=
  let '(a, b) := slice_bounds n lo hi in b - a.

Definition slice {A} (n : nat) (lo hi : Z) (l : list A) : list A :=
  let '(a, b) := slice_bounds n lo hi in take (b - a) (drop a l).

End Py.

Import Py.

(** ** numpy arrays, as far as the sampler uses them *)

Module Numpy.

Section Arrays.
Context {A : Type}.

(** A two-dimensional array: its [shape] and its rows. *)
Record array2 : Type := Array2 {
  shape2 : nat * nat;
  items2 : list (list A)
}.

(** A three-dimensional array [a[i][j][k]]. *)
Record array3 : Type := Array3 {
  shape3 : nat * nat * nat;
  items3 : list (list (list A))
}.

Definition wf2 (a : array2) : Prop :=
  length (items2 a) = (shape2 a).1 ∧
  Forall (λ row, length row = (shape2 a).2) (items2 a).

Definition wf3 (a : array3) : Prop :=
  length (items3 a) = (shape3 a).1.1 ∧
  Forall (λ row, length row = (shape3 a).1.2 ∧
                 Forall (λ px, length px = (shape3 a).2) row) (items3 a).

Definition get2 (a : array2) (i j : nat) : option A :=
  row ← items2 a !! i; row !! j.

Definition get3 (a : array3) (i j k : nat) : option A :=
  row ← items3 a !! i; px ← row !! j; px !! k.

(** [a[i, j]] with non-negative indices. *)
Definition item2 (a : array2) (i j : nat) : result A :=
  match get2 a i j with
  | Some v => Ok v
  | None => Raise IndexError
  end.

(** [a[x1:x2, y1:y2]] on a three-dimensional array: the first two axes are
    sliced, the last one is kept whole. *)
Definition slice3 (a : array3) (x1 x2 y1 y2 : Z) : array3 :=
  let '(h, w, c) := shape3 a in
  Array3 (slice_len h x1 x2, slice_len w y1 y2, c)
         ((λ row : list (list A), slice w y1 y2 row) <$> slice h x1 x2 (items3 a)).

(** [np.copy(a)]: the same shape and values (in a buffer of its own, see
    the store model further down). *)
Definition copy3 (a : array3) : array3 := Array3 (shape3 a) (items3 a).

(** [a.transpose((2, 0, 1))]: the result [t] has [t[c][i][j] = a[i][j][c]]. *)
Definition transpose201 (a : array3) : array3 :=
  let '(h, w, c) := shape3 a in
  Array3 (c, h, w)
         ((λ k : nat, (λ row : list (list A), omap (.!! k) row) <$> items3 a)
            <$> seq 0 c).

End Arrays.

Arguments array2 A : clear implicits.
Arguments array3 A : clear implicits.

(** [np.asarray(a, dtype=...)] on values: every element is converted. *)
Definition astype3 {A B} (f : A → B) (a : array3 A) : array3 B :=
  Array3 (shape3 a)
         ((λ row : list (list A), (λ px : list A, f <$> px) <$> row) <$> items3 a).

(** [np.ones_like(gt)] *)
Definition ones_like (gt : array2 Z) : array2 Z :=
  Array2 (shape2 gt) ((λ row : list Z, (λ _ : Z, 1%Z) <$> row) <$> items2 gt).

(** [mask[gt == l] = 0] *)
Definition clear_where_eq (gt : array2 Z) (mask : array2 Z) (l : Z) : array2 Z :=
  Array2 (shape2 mask)
         (zip_with (zip_with (λ g m : Z, if decide (g = l) then 0%Z else m))
                   (items2 gt) (items2 mask)).

(** The columns of the non-zero entries of one row, in increasing order. *)
Definition nonzero_row (row : list Z) : list nat :=
  omap (λ o : option nat, o)
       (imap (λ (c : nat) (v : Z), if decide (v = 0%Z) then None else Some c) row).

(** The positions of the non-zero entries, in row-major order. *)
Definition nonzero_positions (mask : array2 Z) : list (nat * nat) :=
  mjoin (imap (λ (r : nat) (row : list Z), (λ c : nat, (r, c)) <$> nonzero_row row)
              (items2 mask)).

(** [np.nonzero(mask)]: one coordinate array per axis. *)
Definition nonzero (mask : array2 Z) : list nat * list nat :=
  let pos := nonzero_positions mask in (pos.*1, pos.*2).

End Numpy.

Import Numpy.

(** ** The patch sampler: class [Dataset] of [partie_2.ipynb] *)

Module Sampler.

(** The [hyperparams] dictionary, with the two keys the class reads. *)
Record hyperparams : Type := Hyperparams {
  hp_patch_size : Z;
  hp_ignored_labels : list Z
}.

(** The comprehension's condition
    [x >= p and x < data.shape[0] - p and y >= p and y < data.shape[1] - p]. *)
Definition fits (h w : nat) (p : Z) (xy : nat * nat) : Prop :=
  (Z.of_nat xy.1 >= p ∧ Z.of_nat xy.1 < Z.of_nat h - p ∧
   Z.of_nat xy.2 >= p ∧ Z.of_nat xy.2 < Z.of_nat w - p)%Z.

#[global] Instance fits_dec h w p xy : Decision (fits h w p xy).
Proof. unfold fits. apply _. Defined.

Section Dataset.
Context {pixel : Type}.

(** The conversion of one raster value to [float32]
    ([np.asarray(..., dtype="float32")]). *)
Variable as_float32 : pixel → pixel.

(** The attributes of a [Dataset] object. *)
Record Dataset : Type := MkDataset {
  data : array3 pixel;
  label : array2 Z;
  patch_size : Z;
  ignored_labels : gset Z;
  height : nat;
  width : nat;
  indices : list (nat * nat);
  labels : list Z
}.

(** [Dataset.__init__(self, data, gt, hyperparams)] *)
Definition init (data : array3 pixel) (gt : array2 Z) (hp : hyperparams)
  : result Dataset :=
  let patch_size := hp_patch_size hp in
  let ignored_labels : gset Z := list_to_set (hp_ignored_labels hp) in
  let height := (shape3 data).1.1 in
  let width := (shape3 data).1.2 in
  let mask := foldl (clear_where_eq gt) (ones_like gt) (elements ignored_labels) in
  let '(x_pos, y_pos) := nonzero mask in
  let p := (patch_size `div` 2)%Z in
  let indices :=
    if decide (p > 0)%Z
    then filter (fits (shape3 data).1.1 (shape3 data).1.2 p) (zip x_pos y_pos)
    else zip x_pos y_pos in
  labels ← mapM (λ xy : nat * nat, item2 gt xy.1 xy.2) indices;
  mret (MkDataset data gt patch_size ignored_labels height width indices labels).

(** Modelled from the spec: the body of [__len__], left as [...] in the
    notebook.  "Size query: returns the number of valid coordinates.  Must
    equal the length of the index sequence." *)
Definition len (self : Dataset) : Z := Z.of_nat (length (indices self)).

(** Modelled from the spec: the right-hand side of [x, y = ...] in
    [__getitem__].  "Item access by position: given an integer [i] in
    [[0, size)] ... at the stored coordinate for index [i].  Fails with
    [IndexError] for [i] outside [[0, size)]." *)
Definition coordinate (self : Dataset) (i : Z) : result (nat * nat) :=
  if decide (0 ≤ i < len self)%Z then
    match indices self !! Z.to_nat i with
    | Some xy => Ok xy
    | None => Raise IndexError
    end
  else Raise IndexError.

(** The window of [__getitem__]:
    [x1, y1 = x - self.patch_size // 2, y - self.patch_size // 2] and
    [x2, y2 = x1 + self.patch_size, y1 + self.patch_size]. *)
Definition window (self : Dataset) (x y : nat) : Z * Z * Z * Z :=
  let x1 := (Z.of_nat x - patch_size self `div` 2)%Z in
  let y1 := (Z.of_nat y - patch_size self `div` 2)%Z in
  let x2 := (x1 + patch_size self)%Z in
  let y2 := (y1 + patch_size self)%Z in
  (x1, y1, x2, y2).

(** Modelled from the spec: the right-hand side of [data = ...], the patch
    cut out of the raster, [self.data[x1:x2, y1:y2]]
    ("patch[c][dy][dx] = image[row - p + dy][col - p + dx][c]"). *)
Definition raw_patch (self : Dataset) (x1 y1 x2 y2 : Z) : array3 pixel :=
  slice3 (data self) x1 x2 y1 y2.

(** Modelled from the spec: the right-hand side of [label = ...],
    [self.label[x, y]] ("label = labels[row][col]"). *)
Definition raw_label (self : Dataset) (x y : nat) : result Z :=
  item2 (label self) x y.

(** [Dataset.__getitem__(self, i)].  The class ids of [gt] are integers,
    which [np.asarray(..., dtype="int64")] leaves as they are; the final
    conversion to tensors (elided in the notebook) keeps shape and values. *)
Definition getitem (self : Dataset) (i : Z) : result (array3 pixel * Z) :=
  xy ← coordinate self i;
  let '(x, y) := xy in
  let '(x1, y1, x2, y2) := window self x y in
  let data := raw_patch self x1 y1 x2 y2 in
  label ← raw_label self x y;
  let data := astype3 as_float32 (transpose201 (copy3 data)) in
  mret (data, label).

End Dataset.

End Sampler.

(** ** torch tensors, as far as the kernel generator uses them *)

Module Torch.

(** A tensor is a shape and one real number per multi-index.  Arithmetic
    is the arithmetic of the real numbers: rounding to [float32] is not
    modelled. *)
Record tensor : Type := Tensor {
  shape : list nat;
  at_ : list nat → R
}.

Definition numel (s : list nat) : nat := foldr Nat.mul 1 s.

(** Row-major offset of a multi-index in a tensor of shape [s]. *)
Fixpoint ravel (s idx : list nat) : nat :=
  match s, idx with
  | _ :: s', i :: idx' => i * numel s' + ravel s' idx'
  | _, _ => 0
  end.

(** The multi-index of an offset. *)
Fixpoint unravel (s : list nat) (off : nat) : list nat :=
  match s with
  | [] => []
  | _ :: s' => off `div` numel s' :: unravel s' (off `mod` numel s')
  end.

(** [t.view(s)]: the same elements in row-major order under a new shape;
    the element counts must agree. *)
Definition view (t : tensor) (s : list nat) : result tensor :=
  if decide (numel (shape t) = numel s)
  then Ok (Tensor s (λ idx, at_ t (unravel (shape t) (ravel s idx))))
  else Raise RuntimeError.

(** [torch.rand(s)]: the next [numel s] draws of the generator, whose
    output sequence is [draw] and whose position is [pos]. *)
Definition rand (draw : nat → R) (pos : nat) (s : list nat) : tensor * nat :=
  (Tensor s (λ idx, draw (pos + ravel s idx)), pos + numel s).

(** [a + t * b] for Python numbers [a] and [b]. *)
Definition affine (a : R) (t : tensor) (b : R) : tensor :=
  Tensor (shape t) (λ idx, (a + at_ t idx * b)%R).

(** [t * b / c] for Python numbers [b] and [c]. *)
Definition mul_div (t : tensor) (b c : R) : tensor :=
  Tensor (shape t) (λ idx, (at_ t idx * b / c)%R).

(** [torch.linspace(start, end, steps)]: [steps] points from [start] to
    [end], both included. *)
Definition linspace (start end_ : R) (steps : nat) : tensor :=
  Tensor [steps]
         (λ idx, (start + INR (hd 0%nat idx) * ((end_ - start) / INR (steps - 1)))%R).

(** [torch.arange(n, dtype=torch.float32) - c] *)
Definition arange_minus (n : nat) (c : R) : tensor :=
  Tensor [n] (λ idx, (INR (hd 0%nat idx) - c)%R).

End Torch.

Import Torch.

(** ** The kernel generator: class [GaborFilters] of [partie_1.ipynb] *)

Module Gabor.

(** The [kernel_size] argument of a convolution: one integer or a pair. *)
Inductive ksize : Type :=
| KInt (k : nat)
| KPair (k0 k1 : nat).

(** The remaining constructor arguments, handed on to the convolution. *)
Record conv_options : Type := ConvOptions {
  stride : nat;
  padding : nat;
  dilation : nat;
  groups : nat;
  bias : bool
}.

Definition default_options : conv_options := ConvOptions 1 0 1 1 false.

(** The attributes of a [GaborFilters] object that the class itself reads
    or writes. *)
Record GaborFilters : Type := MkGabor {
  in_channels : nat;
  out_channels : nat;
  kernel_size : nat * nat;
  options : conv_options;
  n_thetas : nat;
  lambda_ : tensor;
  psi : tensor;
  sigma : tensor;
  gamma : tensor;
  thetas : tensor
}.

(** Modelled from the spec: the elided call [super().__init__(...)] of the
    inherited convolution constructor, by what it does to the attribute
    read later: an integer [kernel_size] becomes the pair of that integer
    twice ("kernel_size (odd, square)"). *)
Definition super_init (k : ksize) : nat * nat :=
  match k with
  | KInt k => (k, k)
  | KPair k0 k1 => (k0, k1)
  end.

Section Init.

(** The output sequence of the random generator behind [torch.rand]. *)
Variable draw : nat → R.

(** [GaborFilters.__init__(self, in_channels, out_channels, kernel_size,
    ..., n_thetas=5)], started with the generator at position [pos].  The
    argument [n_thetas] is received and not read.  The elided right-hand
    sides of [self.lambda_ = ...] and the three lines after it, and the
    elided [register_buffer(...)], are modelled from the spec: "allocate
    the four learnable parameter tensors with the initialization ranges"
    and "precompute the fixed orientation-angle vector", that is, the
    attributes hold the tensors computed just above them. *)
Definition init (in_channels out_channels : nat) (kernel_size : ksize)
    (opts : conv_options) (n_thetas_arg : nat) (pos : nat)
  : result GaborFilters :=
  let n_thetas := out_channels `div` 16 in
  let kernel_size := super_init kernel_size in
  g ← floordiv out_channels n_thetas;
  let '(u, pos) := rand draw pos [g; 1; in_channels; 1; 1] in
  let lambda_init_values := affine (1 / 10) u 32 in
  g ← floordiv out_channels n_thetas;
  let '(u, pos) := rand draw pos [g; 1; in_channels; 1; 1] in
  let psi_init_values := mul_div u PI 2 in
  g ← floordiv out_channels n_thetas;
  let '(u, pos) := rand draw pos [g; 1; in_channels; 1; 1] in
  let sigma_init_values := affine (1 / 10) u 10 in
  g ← floordiv out_channels n_thetas;
  let '(u, pos) := rand draw pos [g; 1; in_channels; 1; 1] in
  let gamma_init_values := u in
  let thetas := linspace 0 (2 * PI) n_thetas in
  mret (MkGabor in_channels out_channels kernel_size opts n_thetas
                lambda_init_values psi_init_values sigma_init_values
                gamma_init_values thetas).

End Init.

(** The coordinate axis of [gabor_filter]:
    [torch.arange(k, dtype=torch.float32) - (k - 1)/2]. *)
Definition axis (k : nat) : tensor := arange_minus k ((INR k - 1) / 2).

(** The rotated coordinates
    [x_ = x * cos(thetas) + y * sin(thetas)] and
    [y_ = -x * sin(thetas) + y * cos(thetas)], at one grid point. *)
Definition x_rot (x y theta : R) : R := (x * cos theta + y * sin theta)%R.
Definition y_rot (x y theta : R) : R := (- x * sin theta + y * cos theta)%R.

(** One entry of
    [torch.exp(-0.5 * ((x_ ** 2 + self.gamma**2 * y_ ** 2) / self.sigma ** 2))
     * torch.cos(2.0 * math.pi * x_ / self.lambda_ + self.psi)]. *)
Definition gb_entry (x_ y_ lam ps sig gam : R) : R :=
  (exp (- (1 / 2) * ((x_ ^ 2 + gam ^ 2 * y_ ^ 2) / sig ^ 2))
   * cos (2 * PI * x_ / lam + ps))%R.

(** [GaborFilters.gabor_filter(self)].  Modelled from the spec: the three
    elided [view(...)] calls, "outer-product broadcast over the 2D grid":
    [x] runs along the rows and [y] along the columns of each kernel, and
    the angles run along the axis of size one that the parameter tensors
    of shape [(g, 1, in_channels, 1, 1)] leave free, so that the product
    has shape [(g, n_thetas, in_channels, k, k)]. *)
Definition gabor_filter (self : GaborFilters) : result tensor :=
  let k := (kernel_size self).1 in
  let x := axis k in
  let y := axis k in
  let g := hd 0 (shape (gamma self)) in
  let gb := Tensor [g; n_thetas self; in_channels self; k; k]
    (λ idx,
       match idx with
       | [a; t; c; i; j] =>
           let theta := at_ (thetas self) [t] in
           let x_ := x_rot (at_ x [i]) (at_ y [j]) theta in
           let y_ := y_rot (at_ x [i]) (at_ y [j]) theta in
           gb_entry x_ y_ (at_ (lambda_ self) [a; 0; c; 0; 0])
                          (at_ (psi self) [a; 0; c; 0; 0])
                          (at_ (sigma self) [a; 0; c; 0; 0])
                          (at_ (gamma self) [a; 0; c; 0; 0])
       | _ => 0%R
       end) in
  view gb [out_channels self; in_channels self;
           (kernel_size self).1; (kernel_size self).2].

End Gabor.

(** ** Objects and buffers: item access over an explicit store

    [Sampler.getitem] gives the values that [__getitem__] returns.  To
    speak about mutation and aliasing, the same method is modelled once
    more over a store of objects: an array object owns a buffer (a
    location of the store), a slice or a transposition is a view onto the
    buffer of the array it is taken from, and [np.copy] allocates. *)

Module Store.

Definition loc : Type := nat.

Inductive dtype : Type := Float32 | Int64 | OtherDtype.

#[global] Instance dtype_eq_dec : EqDecision dtype.
Proof. solve_decision. Defined.

(** How a view reads the buffer it sits on. *)
Inductive vstep : Type :=
| VSlice (x1 x2 y1 y2 : Z)
| VTranspose201.

(** An array object: the buffer it reads and the view it has of it. *)
Record ndarray : Type := Nd {
  base : loc;
  steps : list vstep
}.

Section Store.
Context {pixel : Type}.
Variable as_float32 : pixel → pixel.

(** What a location holds: the buffer of a raster, of a label image or of
    a zero-dimensional integer array, or the attributes of a [Dataset]. *)
Inductive object : Type :=
| Buffer3 (dt : dtype) (a : array3 pixel)
| Buffer2 (a : array2 Z)
| Buffer0 (dt : dtype) (v : Z)
| DatasetObj (data_ref label_ref : loc) (patch_size : Z)
             (ignored_labels : gset Z) (height width : nat)
             (indices : list (nat * nat)) (labels : list Z).

Abbreviation store := (gmap loc object).

(** Computations that read and extend the store and may raise. *)
Definition M (A : Type) : Type := store → result A * store.

Definition ret {A} (a : A) : M A := λ st, (Ok a, st).

Definition bind {A B} (m : M A) (k : A → M B) : M B := λ st,
  match m st with
  | (Ok a, st') => k a st'
  | (Raise e, st') => (Raise e, st')
  end.

Definition lift {A} (r : result A) : M A := λ st, (r, st).

Notation "'let*' x ':=' m 'in' k" := (bind m (λ x, k))
  (at level 10, x pattern, m at level 100, k at level 200).

(** A new object at a location not in use. *)
Definition alloc (o : object) : M loc := λ st,
  let l := fresh (dom st) in (Ok l, <[l := o]> st).

Definition apply_step (a : array3 pixel) (s : vstep) : array3 pixel :=
  match s with
  | VSlice x1 x2 y1 y2 => slice3 a x1 x2 y1 y2
  | VTranspose201 => transpose201 a
  end.

(** The dtype and the elements an array object shows in a store. *)
Definition peek3 (st : store) (nd : ndarray) : option (dtype * array3 pixel) :=
  match st !! base nd with
  | Some (Buffer3 dt a) => Some (dt, foldl apply_step a (steps nd))
  | _ => None
  end.

Definition peek0 (st : store) (l : loc) : option Z :=
  match st !! l with
  | Some (Buffer0 _ v) => Some v
  | _ => None
  end.

Definition read3 (nd : ndarray) : M (dtype * array3 pixel) := λ st,
  match peek3 st nd with
  | Some r => (Ok r, st)
  | None => (Raise RuntimeError, st)
  end.

(** The attributes of the [Dataset] object at [self], with the arrays its
    [data] and [label] attributes refer to. *)
Definition load_self (self : loc)
  : M (loc * loc * @Sampler.Dataset pixel) := λ st,
  match st !! self with
  | Some (DatasetObj d l patch_size ignored height width indices labels) =>
      match st !! d, st !! l with
      | Some (Buffer3 _ img), Some (Buffer2 gt) =>
          (Ok (d, l, Sampler.MkDataset img gt patch_size ignored height width
                                       indices labels), st)
      | _, _ => (Raise RuntimeError, st)
      end
  | _ => (Raise RuntimeError, st)
  end.

(** [a[x1:x2, y1:y2]]: a view, nothing is allocated. *)
Definition np_slice (nd : ndarray) (x1 x2 y1 y2 : Z) : ndarray :=
  Nd (base nd) (steps nd ++ [VSlice x1 x2 y1 y2]).

(** [a.transpose((2, 0, 1))]: a view, nothing is allocated. *)
Definition np_transpose (nd : ndarray) : ndarray :=
  Nd (base nd) (steps nd ++ [VTranspose201]).

(** [np.copy(a)]: a new buffer with the elements [a] shows. *)
Definition np_copy (nd : ndarray) : M ndarray :=
  let* r := read3 nd in
  let* l := alloc (Buffer3 r.1 (copy3 r.2)) in
  ret (Nd l []).

(** [np.asarray(a, dtype="float32")]: [a] itself when it already has that
    dtype, a converted array with a buffer of its own otherwise. *)
Definition np_asarray_float32 (nd : ndarray) : M ndarray :=
  let* r := read3 nd in
  if decide (r.1 = Float32) then ret nd
  else
    let* l := alloc (Buffer3 Float32 (astype3 as_float32 r.2)) in
    ret (Nd l []).

(** [np.copy(v)] on an integer scalar: a new zero-dimensional array. *)
Definition np_copy_scalar (v : Z) : M loc := alloc (Buffer0 Int64 v).

(** [np.asarray(a, dtype="int64")] on a zero-dimensional array. *)
Definition np_asarray_int64 (l : loc) : M loc := λ st,
  match st !! l with
  | Some (Buffer0 dt v) =>
      if decide (dt = Int64) then (Ok l, st) else alloc (Buffer0 Int64 v) st
  | _ => (Raise RuntimeError, st)
  end.

(** [Dataset.__getitem__(self, i)] on objects.  The same steps as
    [Sampler.getitem]; the tensors built by the last two (elided) lines
    share the buffers of the arrays they are built from. *)
Definition getitem (self : loc) (i : Z) : M (ndarray * loc) :=
  let* s := load_self self in
  let '(d, _, attrs) := s in
  let* xy := lift (Sampler.coordinate attrs i) in
  let '(x, y) := xy in
  let '(x1, y1, x2, y2) := Sampler.window attrs x y in
  let data := np_slice (Nd d []) x1 x2 y1 y2 in
  let* label := lift (Sampler.raw_label attrs x y) in
  let* data := np_copy data in
  let* data := np_asarray_float32 (np_transpose data) in
  let* label := np_copy_scalar label in
  let* label := np_asarray_int64 label in
  ret (data, label).

End Store.

End Store.

(** ** Loading the rasters: the second code cell of [partie_2.ipynb] *)

Module Loading.

Section Arrays.
Context {A : Type}.

(** [data.transpose(1, 2, 0)] on a band-first raster: the result [t] has
    [t[i][j][c] = data[c][i][j]]. *)
Definition transpose120 (a : array3 A) : array3 A :=
  let '(b, h, w) := shape3 a in
  Array3 (h, w, b)
         ((λ i : nat,
             (λ j : nat,
                omap (λ band : list (list A), row ← band !! i; row !! j) (items3 a))
               <$> seq 0 w)
            <$> seq 0 h).

(** [a[x1:x2, y1:y2]] on a two-dimensional array. *)
Definition slice2 (a : array2 A) (x1 x2 y1 y2 : Z) : array2 A :=
  let '(h, w) := shape2 a in
  Array2 (slice_len h x1 x2, slice_len w y1 y2)
         ((λ row : list A, slice w y1 y2 row) <$> slice h x1 x2 (items2 a)).

End Arrays.

(** A Python integer stored into an array of dtype [uint8]. *)
Definition uint8 (z : Z) : Z := (z `mod` 256)%Z.

(** [np.unique(gt)]: the distinct values of the array, in increasing
    order. *)
Definition np_unique (gt : array2 Z) : list Z :=
  merge_sort Z.le (remove_dups (mjoin (items2 gt))).

(** [gt[class_id == gt] = i], on the array as it is at that moment. *)
Definition assign_where_eq (gt : array2 Z) (class_id : Z) (i : nat) : array2 Z :=
  Array2 (shape2 gt)
         ((λ row : list Z,
             (λ v : Z, if decide (class_id = v) then uint8 (Z.of_nat i) else v) <$> row)
            <$> items2 gt).

(** [enumerate(l)] *)
Definition enumerate {A} (l : list A) : list (nat * A) := imap pair l.

(** [for i, class_id in enumerate(np.unique(gt)): gt[class_id == gt] = i]:
    the class ids are read once, before the loop; the array is updated in
    place at every turn. *)
Definition relabel (gt : array2 Z) : array2 Z :=
  foldl (λ (g : array2 Z) (ic : nat * Z), assign_where_eq g ic.2 ic.1)
        gt (enumerate (np_unique gt)).

(** The last four lines of the cell, from the band-first raster [data]
    read through the 1000 x 1000 window and the reprojected label image
    [gt] of dtype [uint8]:
    [img = data.transpose(1, 2, 0)], [gt = gt[:1000, :1000]] and the
    relabelling loop. *)
Definition load {A} (data : array3 A) (gt : array2 Z) : array3 A * array2 Z :=
  let img := transpose120 data in
  let gt := slice2 gt 0 1000 0 1000 in
  (img, relabel gt).

End Loading.

(** ** The networks: [AlexNet] of [partie_1.ipynb], [TinyAlexNet] of
    [partie_2.ipynb], and [n_params] *)

Module Nets.

(** The layers the two networks are made of, with the constructor
    arguments that decide the shapes of their parameters and outputs
    (a dropout rate is a probability: the layer accepts no other
    number).  Sizes are binary numbers: the networks have tens of
    millions of parameters. *)
Inductive layer : Type :=
| Conv2d (in_channels out_channels kernel_size stride padding : N)
| ReLU
| MaxPool2d (kernel_size stride : N)
| AdaptiveAvgPool2d (out_h out_w : N)
| Identity
| Dropout (p : R)
| Linear (in_features out_features : N).

(** The attributes of a network: [features], [avgpool], [classifier]. *)
Record net : Type := MkNet {
  features : list layer;
  avgpool : layer;
  classifier : list layer
}.

(** [AlexNet.__init__(self, num_classes=10, dropout_rate=0)].  The loop
    over [self.modules()] at its end draws the initial values of the
    parameters and leaves every shape as it is. *)
Definition AlexNet (num_classes : N) (dropout_rate : R) : net :=
  MkNet
    [Conv2d 3 64 11 4 2; ReLU; MaxPool2d 3 2;
     Conv2d 64 192 5 1 2; ReLU; MaxPool2d 3 2;
     Conv2d 192 384 3 1 1; ReLU;
     Conv2d 384 256 3 1 1; ReLU;
     Conv2d 256 256 3 1 1; ReLU; MaxPool2d 3 2]
    (AdaptiveAvgPool2d 6 6)
    [Dropout dropout_rate; Linear (256 * 6 * 6) 4096; ReLU;
     Dropout dropout_rate; Linear 4096 4096; ReLU;
     Linear 4096 num_classes].

(** [TinyAlexNet.__init__(self, num_classes=10, dropout_rate=0)] *)
Definition TinyAlexNet (num_classes : N) (dropout_rate : R) : net :=
  MkNet
    [Conv2d 3 64 11 4 2; ReLU; MaxPool2d 3 2;
     Conv2d 64 1 5 1 2; ReLU; MaxPool2d 3 2]
    Identity
    [Dropout dropout_rate; Linear 4 32; ReLU;
     Dropout dropout_rate; Linear 32 num_classes].

(** The shapes of the parameters of one layer: weight, then bias. *)
Definition layer_parameters (l : layer) : list (list N) :=
  match l with
  | Conv2d cin cout k _ _ => [[cout; cin; k; k]; [cout]]
  | Linear fin fout => [[fout; fin]; [fout]]
  | _ => []
  end.

(** The shapes of [model.parameters()], in registration order. *)
Definition parameters (model : net) : list (list N) :=
  (features model ++ [avgpool model] ++ classifier model) ≫= layer_parameters.

(** [shape.numel()] *)
Definition numel (s : list N) : N := foldr N.mul 1%N s.

(** [n_params(model)]: [n = 0], then [n += param.shape.numel()] for every
    parameter. *)
Definition n_params (model : net) : N :=
  foldl (λ (n : N) (s : list N), (n + numel s)%N) 0%N (parameters model).

(** The output size of a convolution or pooling window along one axis,
    [(size + 2 padding - kernel_size) // stride + 1]; the window must fit
    into the padded input. *)
Definition window_out (size k stride pad : N) : result N :=
  if decide (stride = 0 ∨ size + 2 * pad < k)%N then Raise RuntimeError
  else Ok ((size + 2 * pad - k) `div` stride + 1)%N.

(** One layer on a batch of feature maps of shape [(n, c, h, w)]. *)
Definition layer4 (l : layer) (s : N * N * N * N) : result (N * N * N * N) :=
  let '(n, c, h, w) := s in
  match l with
  | Conv2d cin cout k stride pad =>
      if decide (c = cin) then
        h' ← window_out h k stride pad;
        w' ← window_out w k stride pad;
        Ok (n, cout, h', w')
      else Raise RuntimeError
  | MaxPool2d k stride =>
      h' ← window_out h k stride 0;
      w' ← window_out w k stride 0;
      Ok (n, c, h', w')
  | AdaptiveAvgPool2d oh ow =>
      if decide (c = 0 ∨ h = 0 ∨ w = 0)%N then Raise RuntimeError
      else Ok (n, c, oh, ow)
  | Linear fin fout =>
      if decide (w = fin) then Ok (n, c, h, fout) else Raise RuntimeError
  | ReLU | Identity | Dropout _ => Ok s
  end.

(** One layer on a batch of vectors of shape [(n, d)]. *)
Definition layer2 (l : layer) (s : N * N) : result (N * N) :=
  let '(n, d) := s in
  match l with
  | Linear fin fout =>
      if decide (d = fin) then Ok (n, fout) else Raise RuntimeError
  | ReLU | Identity | Dropout _ => Ok s
  | Conv2d _ _ _ _ _ | MaxPool2d _ _ | AdaptiveAvgPool2d _ _ => Raise RuntimeError
  end.

(** [nn.Sequential]: the layers one after the other. *)
Definition sequential {S} (step : layer → S → result S) (ls : list layer) (s : S)
  : result S :=
  foldl (λ (r : result S) (l : layer), r ≫= step l) (Ok s) ls.

(** [torch.flatten(x, 1)] *)
Definition flatten1 (s : N * N * N * N) : N * N :=
  let '(n, c, h, w) := s in (n, c * h * w)%N.

(** The shape of [AlexNet.forward(inputs)]:
    [features], [avgpool], [torch.flatten(x, 1)], [classifier]. *)
Definition AlexNet_forward (model : net) (inputs : N * N * N * N)
  : result (N * N) :=
  x ← sequential layer4 (features model) inputs;
  x ← layer4 (avgpool model) x;
  let x := flatten1 x in
  sequential layer2 (classifier model) x.

(** The shape of [TinyAlexNet.forward(inputs)]:
    [features], [torch.flatten(x, 1)], [classifier]. *)
Definition TinyAlexNet_forward (model : net) (inputs : N * N * N * N)
  : result (N * N) :=
  x ← sequential layer4 (features model) inputs;
  let x := flatten1 x in
  sequential layer2 (classifier model) x.

End Nets.

(** ** Concrete rasters *)

Module Examples.

(** A 6 x 6 raster with one channel; pixel [(r, c)] holds [10 r + c]. *)
Definition image6 : array3 Z :=
  Array3 (6, 6, 1)
         ((λ r : nat, (λ c : nat, [Z.of_nat (10 * r + c)]) <$> seq 0 6) <$> seq 0 6).

(** 6 x 6 labels, all zero except a single [1] at [(3, 3)]. *)
Definition labels6 : array2 Z :=
  Array2 (6, 6)
         ((λ r : nat, (λ c : nat, if decide (r = 3 ∧ c = 3) then 1%Z else 0%Z)
                        <$> seq 0 6) <$> seq 0 6).

(** 3 x 3 labels, all of class [1]. *)
Definition labels3 : array2 Z :=
  Array2 (3, 3) ((λ _ : nat, (λ _ : nat, 1%Z) <$> seq 0 3) <$> seq 0 3).

(** The coordinates with row and column in [[1, 4]], in row-major order. *)
Definition inner16 : list (nat * nat) :=
  r ← seq 1 4; c ← seq 1 4; [(r, c)].

(** The sampler that [Dataset(image6, labels6, {patch_size: 3,
    ignored_labels: []})] builds. *)
Definition sampler6 : @Sampler.Dataset Z :=
  Sampler.MkDataset image6 labels6 3 (list_to_set []) 6 6 inner16
    ((λ xy : nat * nat, if decide (xy = (3, 3)) then 1%Z else 0%Z) <$> inner16).

(** The sampler that [Dataset(image6, labels6, {patch_size: 0,
    ignored_labels: [0]})] builds: the pixel at [(3, 3)] alone. *)
Definition sampler0 : @Sampler.Dataset Z :=
  Sampler.MkDataset image6 labels6 0 (list_to_set [0%Z]) 6 6 [(3, 3)] [1%Z].

(** A store with the raster (of integer dtype) at [0], the label image
    at [1] and [sampler6] at [2]. *)
Definition store6 : gmap Store.loc (@Store.object Z) :=
  <[2 := Store.DatasetObj 0 1 (Sampler.patch_size sampler6)
           (Sampler.ignored_labels sampler6) (Sampler.height sampler6)
           (Sampler.width sampler6) (Sampler.indices sampler6)
           (Sampler.labels sampler6)]>
    (<[1 := Store.Buffer2 labels6]>
       (<[0 := Store.Buffer3 Store.OtherDtype image6]> ∅)).

(** A generator for [torch.rand] that always draws one half. *)
Definition draw_half : nat → R := λ _, (1 / 2)%R.

End Examples.

(** ** Orders and further concrete inputs *)

Module Extra.

(** Row-major order of pixel coordinates. *)
Definition row_major_lt (a b : nat * nat) : Prop :=
  a.1 < b.1 ∨ (a.1 = b.1 ∧ a.2 < b.2).

(** A 2 x 2 raster with one channel. *)
Definition image2 : array3 Z := Array3 (2, 2, 1) [[[1%Z]; [2%Z]]; [[3%Z]; [4%Z]]].

(** 2 x 2 labels, all of class [1]. *)
Definition labels2 : array2 Z := Array2 (2, 2) [[1%Z; 1%Z]; [1%Z; 1%Z]].

(** A 2 x 3 label image with the class ids 0, 20 and 7. *)
Definition labels_raw : array2 Z :=
  Array2 (2, 3) [[20%Z; 0%Z; 7%Z]; [7%Z; 20%Z; 20%Z]].

(** A band-first raster with three bands of 6 x 6 pixels; band [b] holds
    [100 b + 10 r + c] at [(r, c)]. *)
Definition bands6 : array3 Z :=
  Array3 (3, 6, 6)
         ((λ b : nat,
             (λ r : nat, (λ c : nat, Z.of_nat (100 * b + 10 * r + c)) <$> seq 0 6)
               <$> seq 0 6)
            <$> seq 0 3).

(** A 47 x 47 raster with three channels; pixel [(r, c)] holds
    [[r, c, 0]]. *)
Definition image47 : array3 Z :=
  Array3 (47, 47, 3)
         ((λ r : nat, (λ c : nat, [Z.of_nat r; Z.of_nat c; 0%Z]) <$> seq 0 47)
            <$> seq 0 47).

(** 47 x 47 labels, all of class [1]. *)
Definition labels47 : array2 Z :=
  Array2 (47, 47) ((λ _ : nat, (λ _ : nat, 1%Z) <$> seq 0 47) <$> seq 0 47).

(** A band-first raster with one band of 2 x 3 pixels. *)
Definition bands23 : array3 Z :=
  Array3 (1, 2, 3) [[[1%Z; 2%Z; 3%Z]; [4%Z; 5%Z; 6%Z]]].

End Extra.

(** * Properties *)

(** ** Results *)

Module PyFacts.

Lemma mapM_ok {A B} (f : A → result B) (l : list A) :
  Forall (λ x, succeeds (f x)) l → succeeds (mapM f l).
Proof.
  induction 1 as [|x l [y Hy] _ [k Hk]]; [by exists []|].
  exists (y :: k). cbn. rewrite Hy. cbn. by rewrite Hk.
Qed.

Lemma slice_bounds_inside (n : nat) (lo hi : Z) :
  (0 ≤ lo)%Z → (lo ≤ hi)%Z → (hi ≤ Z.of_nat n)%Z →
  slice_bounds n lo hi = (Z.to_nat lo, Z.to_nat hi).
Proof.
  intros H0 H1 H2. unfold slice_bounds.
  repeat case_decide; try lia. f_equal; f_equal; lia.
Qed.

Lemma slice_len_inside (n : nat) (lo hi : Z) :
  (0 ≤ lo)%Z → (lo ≤ hi)%Z → (hi ≤ Z.of_nat n)%Z →
  slice_len n lo hi = Z.to_nat (hi - lo).
Proof.
  intros H0 H1 H2. unfold slice_len.
  rewrite slice_bounds_inside by done. lia.
Qed.

Lemma lookup_slice_inside {A} (n : nat) (lo hi : Z) (l : list A) (i : nat) :
  (0 ≤ lo)%Z → (lo ≤ hi)%Z → (hi ≤ Z.of_nat n)%Z →
  (Z.of_nat i < hi - lo)%Z →
  slice n lo hi l !! i = l !! Z.to_nat (lo + Z.of_nat i).
Proof.
  intros H0 H1 H2 Hi. unfold slice. rewrite slice_bounds_inside by done.
  rewrite lookup_take_lt by lia. rewrite lookup_drop. f_equal. lia.
Qed.

Lemma slice_len_empty (n : nat) (z : Z) : slice_len n z z = 0.
Proof.
  unfold slice_len. destruct (slice_bounds n z z) as [a b] eqn:Hb.
  unfold slice_bounds in Hb. injection Hb as <- <-. lia.
Qed.

Lemma slice_empty {A} (n : nat) (z : Z) (l : list A) : slice n z z l = [].
Proof.
  unfold slice. destruct (slice_bounds n z z) as [a b] eqn:Hb.
  unfold slice_bounds in Hb. injection Hb as <- <-. by rewrite Nat.sub_diag.
Qed.

Lemma Forall_slice {A} (P : A → Prop) (n : nat) (lo hi : Z) (l : list A) :
  Forall P l → Forall P (slice n lo hi l).
Proof.
  intros H. unfold slice. destruct (slice_bounds n lo hi).
  by apply Forall_take, Forall_drop.
Qed.

End PyFacts.

Import PyFacts.

(** ** Arrays *)

Module NumpyFacts.

Section Arrays.
Context {A : Type}.
Implicit Types a : array3 A.

Lemma get3_slice3 a (x1 x2 y1 y2 : Z) (h w c i j k : nat) :
  shape3 a = (h, w, c) →
  (0 ≤ x1)%Z → (x1 ≤ x2)%Z → (x2 ≤ Z.of_nat h)%Z →
  (0 ≤ y1)%Z → (y1 ≤ y2)%Z → (y2 ≤ Z.of_nat w)%Z →
  (Z.of_nat i < x2 - x1)%Z → (Z.of_nat j < y2 - y1)%Z →
  get3 (slice3 a x1 x2 y1 y2) i j k
  = get3 a (Z.to_nat (x1 + Z.of_nat i)) (Z.to_nat (y1 + Z.of_nat j)) k.
Proof.
  intros Hs ? ? ? ? ? ? Hi Hj. unfold get3, slice3. rewrite Hs.
  cbn -[slice slice_len].
  rewrite list_lookup_fmap, lookup_slice_inside by done.
  destruct (items3 a !! _) as [row|]; cbn -[slice]; [|done].
  by rewrite lookup_slice_inside.
Qed.

Lemma shape3_slice3 a (x1 x2 y1 y2 : Z) (h w c : nat) :
  shape3 a = (h, w, c) →
  shape3 (slice3 a x1 x2 y1 y2) = (slice_len h x1 x2, slice_len w y1 y2, c).
Proof. intros Hs. unfold slice3. by rewrite Hs. Qed.

(** Every pixel of a slice is a pixel of the array. *)
Lemma pixels_slice3 a (x1 x2 y1 y2 : Z) (P : list A → Prop) :
  Forall (Forall P) (items3 a) →
  Forall (Forall P) (items3 (slice3 a x1 x2 y1 y2)).
Proof.
  intros H. unfold slice3. destruct (shape3 a) as [[h w] c]. cbn -[slice].
  apply Forall_fmap, Forall_slice.
  eapply Forall_impl; [exact H|]. intros row Hrow. cbn. by apply Forall_slice.
Qed.

Lemma lookup_omap_lookup (row : list (list A)) (c k j : nat) :
  Forall (λ px, length px = c) row → k < c →
  omap (.!! k) row !! j = (px ← row !! j; px !! k).
Proof.
  intros Hrow Hk. revert j.
  induction Hrow as [|px row Hpx _ IH]; intros j; [done|].
  cbn. destruct (lookup_lt_is_Some_2 px k) as [v Hv]; [lia|].
  rewrite Hv. destruct j as [|j]; cbn; [done|]. apply IH.
Qed.

Lemma get3_transpose201 a (h w c i j k : nat) :
  shape3 a = (h, w, c) →
  Forall (Forall (λ px, length px = c)) (items3 a) →
  k < c →
  get3 (transpose201 a) k i j = get3 a i j k.
Proof.
  intros Hs Hpx Hk. unfold get3, transpose201. rewrite Hs. cbn.
  rewrite list_lookup_fmap, lookup_seq_lt by done. cbn.
  rewrite list_lookup_fmap.
  destruct (items3 a !! i) as [row|] eqn:Hrow; cbn; [|done].
  eapply lookup_omap_lookup; [|done].
  eapply Forall_lookup_1 in Hpx; [|exact Hrow]. done.
Qed.

Lemma shape3_transpose201 a (h w c : nat) :
  shape3 a = (h, w, c) → shape3 (transpose201 a) = (c, h, w).
Proof. intros Hs. unfold transpose201. by rewrite Hs. Qed.

Lemma get3_astype3 (f : A → A) a (i j k : nat) :
  get3 (astype3 f a) i j k = f <$> get3 a i j k.
Proof.
  unfold get3, astype3. cbn. rewrite list_lookup_fmap.
  destruct (items3 a !! i) as [row|]; cbn; [|done].
  rewrite list_lookup_fmap. destruct (row !! j) as [px|]; cbn; [|done].
  by rewrite list_lookup_fmap.
Qed.

Lemma wf3_pixels a :
  wf3 a → Forall (Forall (λ px, length px = (shape3 a).2)) (items3 a).
Proof.
  intros [_ H]. eapply Forall_impl; [exact H|]. by intros row [_ ?].
Qed.

End Arrays.

(** The mask of [__init__] after the loop over the ignored labels. *)
Lemma get2_ones_like (gt : array2 Z) (r c : nat) :
  get2 (ones_like gt) r c = (λ _, 1%Z) <$> get2 gt r c.
Proof.
  unfold get2, ones_like. cbn. rewrite list_lookup_fmap.
  destruct (items2 gt !! r) as [row|]; cbn; [|done].
  by rewrite list_lookup_fmap.
Qed.

Lemma get2_clear_where_eq (gt mask : array2 Z) (l : Z) (r c : nat) :
  get2 (clear_where_eq gt mask l) r c
  = (g ← get2 gt r c; m ← get2 mask r c;
     Some (if decide (g = l) then 0%Z else m)).
Proof.
  unfold get2, clear_where_eq. cbn. rewrite lookup_zip_with.
  destruct (items2 gt !! r) as [grow|]; cbn; try done.
  destruct (items2 mask !! r) as [mrow|]; cbn.
  - rewrite lookup_zip_with. by destruct (grow !! c).
  - by destruct (grow !! c).
Qed.

Lemma get2_mask (gt : array2 Z) (ls : list Z) (r c : nat) :
  get2 (foldl (clear_where_eq gt) (ones_like gt) ls) r c
  = (λ g, if decide (g ∈ ls) then 0%Z else 1%Z) <$> get2 gt r c.
Proof.
  induction ls as [|l ls IH] using rev_ind.
  - cbn. rewrite get2_ones_like. by destruct (get2 gt r c).
  - rewrite foldl_snoc, get2_clear_where_eq, IH.
    destruct (get2 gt r c) as [g|]; cbn; [|done]. f_equal.
    destruct (decide (g = l)) as [->|Hne].
    + rewrite decide_True; [done|].
      apply elem_of_app. right. by apply list_elem_of_singleton.
    + apply decide_ext. rewrite elem_of_app, list_elem_of_singleton. tauto.
Qed.

Lemma elem_of_nonzero_row (row : list Z) (c : nat) :
  c ∈ nonzero_row row ↔ ∃ v, row !! c = Some v ∧ v ≠ 0%Z.
Proof.
  unfold nonzero_row. rewrite list_elem_of_omap. split.
  - intros (o & Ho & ->). apply elem_of_lookup_imap in Ho as (i & v & Ho & Hv).
    case_decide; [done|]. injection Ho as ->. eauto.
  - intros (v & Hv & Hne). exists (Some c). split; [|done].
    apply elem_of_lookup_imap. exists c, v. split; [|done]. by case_decide.
Qed.

Lemma elem_of_nonzero_positions (mask : array2 Z) (r c : nat) :
  (r, c) ∈ nonzero_positions mask ↔ ∃ v, get2 mask r c = Some v ∧ v ≠ 0%Z.
Proof.
  unfold nonzero_positions, get2. rewrite list_elem_of_join. split.
  - intros (l & Hl & Hin). apply elem_of_lookup_imap in Hin as (i & row & -> & Hrow).
    apply list_elem_of_fmap in Hl as (c' & [= -> ->] & Hc).
    apply elem_of_nonzero_row in Hc as (v & Hv & Hne).
    exists v. rewrite Hrow. cbn. done.
  - intros (v & Hv & Hne).
    destruct (items2 mask !! r) as [row|] eqn:Hrow; cbn in Hv; [|done].
    exists ((λ c : nat, (r, c)) <$> nonzero_row row). split.
    + apply list_elem_of_fmap. exists c. split; [done|].
      apply elem_of_nonzero_row. eauto.
    + apply elem_of_lookup_imap. eauto.
Qed.

End NumpyFacts.

Import NumpyFacts.

(** ** The patch sampler *)

Module SamplerFacts.

Import Sampler.

Section Facts.
Context {pixel : Type}.
Variable as_float32 : pixel → pixel.
Implicit Types (data : array3 pixel) (gt : array2 Z) (hp : hyperparams).
Implicit Types (self : @Dataset pixel).

(** The candidate positions of [__init__]: the labelled pixels whose label
    is not ignored. *)
Lemma elem_of_candidates gt (ls : list Z) (r c : nat) :
  (r, c) ∈ nonzero_positions
             (foldl (clear_where_eq gt) (ones_like gt)
                    (elements (list_to_set (C:=gset Z) ls)))
  ↔ ∃ l, get2 gt r c = Some l ∧ l ∉ ls.
Proof.
  rewrite elem_of_nonzero_positions. setoid_rewrite get2_mask.
  split.
  - intros (v & Hv & Hne). destruct (get2 gt r c) as [l|]; [|done].
    exists l. split; [done|]. intros Hin. cbn in Hv.
    rewrite decide_True in Hv; [by injection Hv as <-|].
    by apply elem_of_elements, elem_of_list_to_set.
  - intros (l & -> & Hl). exists 1%Z. split; [|done]. cbn.
    rewrite decide_False; [done|].
    intros Hin. by apply elem_of_elements, elem_of_list_to_set in Hin.
Qed.

(** What [__init__] stores. *)
Lemma init_attrs data gt hp self :
  init data gt hp = Ok self →
  Sampler.data self = data ∧ label self = gt ∧
  patch_size self = hp_patch_size hp ∧
  indices self =
    (let pos := nonzero_positions
                  (foldl (clear_where_eq gt) (ones_like gt)
                     (elements (list_to_set (C:=gset Z) (hp_ignored_labels hp)))) in
     if decide (hp_patch_size hp `div` 2 > 0)%Z
     then filter (fits (shape3 data).1.1 (shape3 data).1.2
                       (hp_patch_size hp `div` 2)) pos
     else pos).
Proof.
  unfold init, nonzero. rewrite zip_fst_snd.
  destruct (mapM _ _) as [ls|e]; cbn; [|done].
  intros [= <-]. done.
Qed.

(** Every stored coordinate is a position of the label image. *)
Lemma indices_labelled data gt hp self (r c : nat) :
  init data gt hp = Ok self → (r, c) ∈ indices self →
  ∃ l, get2 gt r c = Some l ∧ l ∉ hp_ignored_labels hp.
Proof.
  intros Hinit Hin. apply init_attrs in Hinit as (_ & _ & _ & Hidx).
  rewrite Hidx in Hin. cbn zeta in Hin.
  case_decide; [apply list_elem_of_filter in Hin as [_ Hin]|];
    by apply elem_of_candidates in Hin.
Qed.

Lemma init_total data gt hp : succeeds (init data gt hp).
Proof.
  unfold init, nonzero. rewrite zip_fst_snd.
  match goal with |- context [mapM ?f ?l] =>
    destruct (mapM_ok f l) as [ls Hls] end.
  - apply Forall_forall. intros [r c] Hin.
    assert (∃ l, get2 gt r c = Some l) as [l Hl].
    { case_decide; [apply list_elem_of_filter in Hin as [_ Hin]|];
        apply elem_of_candidates in Hin as (l & Hl & _); eauto. }
    exists l. unfold item2. cbn. by rewrite Hl.
  - rewrite Hls. cbn. by eexists.
Qed.

Lemma coordinate_ok self (i : Z) :
  (0 ≤ i < len self)%Z →
  ∃ xy, indices self !! Z.to_nat i = Some xy ∧ coordinate self i = Ok xy.
Proof.
  intros Hi. unfold coordinate. rewrite decide_True by done.
  destruct (lookup_lt_is_Some_2 (indices self) (Z.to_nat i)) as [xy Hxy].
  { unfold len in Hi. lia. }
  exists xy. by rewrite Hxy.
Qed.

Lemma coordinate_out_of_range self (i : Z) :
  (i < 0 ∨ len self ≤ i)%Z → coordinate self i = Raise IndexError.
Proof.
  intros Hi. unfold coordinate. rewrite decide_False; [done|lia].
Qed.

(** Item access in range: coordinate, window and label are all there. *)
Lemma getitem_in_range data gt hp self (i : Z) :
  init data gt hp = Ok self → (0 ≤ i < len self)%Z →
  ∃ (r c : nat) (l : Z),
    indices self !! Z.to_nat i = Some (r, c) ∧
    get2 gt r c = Some l ∧ (l ∉ hp_ignored_labels hp) ∧
    getitem as_float32 self i =
      Ok (astype3 as_float32
            (transpose201
               (copy3 (slice3 data
                  (Z.of_nat r - hp_patch_size hp `div` 2)
                  (Z.of_nat r - hp_patch_size hp `div` 2 + hp_patch_size hp)
                  (Z.of_nat c - hp_patch_size hp `div` 2)
                  (Z.of_nat c - hp_patch_size hp `div` 2 + hp_patch_size hp)))),
          l).
Proof.
  intros Hinit Hi.
  destruct (coordinate_ok self i Hi) as ([r c] & Hidx & Hco).
  destruct (indices_labelled data gt hp self r c Hinit) as (l & Hl & Hign).
  { apply list_elem_of_lookup. eauto. }
  exists r, c, l. repeat split; try done.
  pose proof (init_attrs _ _ _ _ Hinit) as (Hd & Hg & Hp & _).
  unfold getitem. rewrite Hco. cbn.
  unfold raw_label, raw_patch, item2. rewrite Hg, Hl, Hp, Hd. done.
Qed.

(** C2 (as amended).  [__init__] validates nothing: whatever the raster,
    the label image, the patch size (negative, even or odd) and the
    ignored labels, and whether or not the spatial dimensions agree,
    construction succeeds; no [ConfigurationError] is ever raised. *)
Theorem init_never_rejects data gt hp :
  succeeds (init data gt hp) ∧ init data gt hp ≠ Raise ConfigurationError.
Proof.
  destruct (init_total data gt hp) as [self Hself].
  split; [by exists self|]. by rewrite Hself.
Qed.

(** C4.  A coordinate is in the index set exactly when its label is not
    ignored and, for [p = patch_size // 2] when [p > 0], it lies at least
    [p] away from the borders of the raster; with [patch_size = 0] every
    pixel with a label that is not ignored is in.  On a 6 x 6 raster with
    one channel, labels all zero but a [1] at [(3, 3)], nothing ignored and
    [patch_size = 3], the index set is the 16 coordinates with row and
    column in [[1, 4]]. *)
Theorem index_set_characterised :
  (∀ data gt hp self, init data gt hp = Ok self →
     ∀ row col : nat,
       (row, col) ∈ indices self ↔
         (∃ l, get2 gt row col = Some l ∧ l ∉ hp_ignored_labels hp) ∧
         ((hp_patch_size hp `div` 2 > 0)%Z →
            (hp_patch_size hp `div` 2 ≤ Z.of_nat row
               < Z.of_nat (shape3 data).1.1 - hp_patch_size hp `div` 2)%Z ∧
            (hp_patch_size hp `div` 2 ≤ Z.of_nat col
               < Z.of_nat (shape3 data).1.2 - hp_patch_size hp `div` 2)%Z)) ∧
  (∀ data gt hp self, init data gt hp = Ok self → hp_patch_size hp = 0%Z →
     ∀ row col : nat,
       (row, col) ∈ indices self ↔
         ∃ l, get2 gt row col = Some l ∧ l ∉ hp_ignored_labels hp) ∧
  (∀ data, shape3 data = (6, 6, 1) →
     ∃ self, init data Examples.labels6 (Hyperparams 3 []) = Ok self ∧
             indices self = Examples.inner16 ∧ length (indices self) = 16).
Proof.
  assert (∀ data gt hp self, init data gt hp = Ok self →
     ∀ row col : nat,
       (row, col) ∈ indices self ↔
         (∃ l, get2 gt row col = Some l ∧ l ∉ hp_ignored_labels hp) ∧
         ((hp_patch_size hp `div` 2 > 0)%Z →
            (hp_patch_size hp `div` 2 ≤ Z.of_nat row
               < Z.of_nat (shape3 data).1.1 - hp_patch_size hp `div` 2)%Z ∧
            (hp_patch_size hp `div` 2 ≤ Z.of_nat col
               < Z.of_nat (shape3 data).1.2 - hp_patch_size hp `div` 2)%Z))
    as Hgen.
  { intros data gt hp self Hinit row col.
    apply init_attrs in Hinit as (_ & _ & _ & ->). cbn zeta.
    case_decide as Hp.
    - rewrite list_elem_of_filter, elem_of_candidates. unfold fits. cbn.
      split.
      + intros [Hf Hl]. split; [done|]. intros _. lia.
      + intros [Hl Hf]. split; [|done]. specialize (Hf Hp). lia.
    - rewrite elem_of_candidates. tauto. }
  split; [exact Hgen|]. split.
  - intros data gt hp self Hinit Hps row col.
    rewrite (Hgen _ _ _ _ Hinit). rewrite Hps.
    change (0 `div` 2)%Z with 0%Z. split; [tauto|].
    intros Hl. split; [done|lia].
  - intros data Hshape.
    destruct (init_total data Examples.labels6 (Hyperparams 3 [])) as [self Hself].
    exists self. split; [done|].
    apply init_attrs in Hself as (_ & _ & _ & ->). rewrite Hshape.
    by vm_compute.
Qed.

(** The stored coordinates lie inside the label image, and at least
    [patch_size // 2] away from the raster's borders when that is
    positive. *)
Lemma indices_bounds data gt hp self (r c : nat) :
  init data gt hp = Ok self → wf2 gt → (r, c) ∈ indices self →
  r < (shape2 gt).1 ∧ c < (shape2 gt).2 ∧
  ((hp_patch_size hp `div` 2 > 0)%Z →
     (hp_patch_size hp `div` 2 ≤ Z.of_nat r
        < Z.of_nat (shape3 data).1.1 - hp_patch_size hp `div` 2)%Z ∧
     (hp_patch_size hp `div` 2 ≤ Z.of_nat c
        < Z.of_nat (shape3 data).1.2 - hp_patch_size hp `div` 2)%Z).
Proof.
  intros Hinit [Hh Hw] Hin.
  pose proof (init_attrs _ _ _ _ Hinit) as (_ & _ & _ & Hidx).
  destruct (indices_labelled _ _ _ _ _ _ Hinit Hin) as (l & Hl & _).
  unfold get2 in Hl.
  destruct (items2 gt !! r) as [row|] eqn:Hrow; cbn in Hl; [|done].
  split; [|split].
  - rewrite <- Hh. by eapply lookup_lt_Some.
  - eapply Forall_lookup_1 in Hw; [|exact Hrow]. rewrite <- Hw.
    by eapply lookup_lt_Some.
  - intros Hp. rewrite Hidx in Hin. cbn zeta in Hin.
    rewrite decide_True in Hin by done.
    apply list_elem_of_filter in Hin as [Hf _]. unfold fits in Hf. cbn in Hf. lia.
Qed.

(** C5.  For a well-formed raster pair (image of shape [h x w x ch], label
    image of shape [h x w]) whose values are [float32] numbers, item
    access at [i] in [[0, size)] returns the patch and the label of the
    stored coordinate [(row, col)]: the patch is channel-first,
    [patch[c][dy][dx] = image[row - p + dy][col - p + dx][c]] with
    [p = patch_size // 2] for [dy], [dx] in [[0, patch_size)], and the
    label is [labels[row][col]]. *)
Theorem getitem_patch_and_label data gt hp self (h w ch : nat) (i : Z) :
  wf3 data → wf2 gt → shape3 data = (h, w, ch) → shape2 gt = (h, w) →
  (∀ r c k v, get3 data r c k = Some v → as_float32 v = v) →
  init data gt hp = Ok self →
  (0 ≤ i < len self)%Z →
  ∃ (row col : nat) (patch : array3 pixel) (l : Z),
    indices self !! Z.to_nat i = Some (row, col) ∧
    getitem as_float32 self i = Ok (patch, l) ∧
    get2 gt row col = Some l ∧
    ((0 ≤ hp_patch_size hp)%Z →
       shape3 patch = (ch, Z.to_nat (hp_patch_size hp), Z.to_nat (hp_patch_size hp))) ∧
    ∀ c dy dx : nat,
      c < ch →
      (Z.of_nat dy < hp_patch_size hp)%Z → (Z.of_nat dx < hp_patch_size hp)%Z →
      is_Some (get3 patch c dy dx) ∧
      get3 patch c dy dx =
        get3 data (Z.to_nat (Z.of_nat row - hp_patch_size hp `div` 2 + Z.of_nat dy))
                  (Z.to_nat (Z.of_nat col - hp_patch_size hp `div` 2 + Z.of_nat dx))
                  c.
Proof.
  intros Hwf3 Hwf2 Hs3 Hs2 Hfloat Hinit Hi.
  destruct (getitem_in_range data gt hp self i Hinit Hi)
    as (row & col & l & Hidx & Hl & _ & Hget).
  exists row, col. eexists. exists l.
  split; [done|]. split; [exact Hget|]. split; [done|].
  destruct (indices_bounds data gt hp self row col Hinit Hwf2) as (Hr & Hc & Hfit).
  { apply list_elem_of_lookup. eauto. }
  rewrite Hs2 in Hr, Hc. rewrite Hs3 in Hfit. cbn in Hr, Hc, Hfit.
  set (ps := hp_patch_size hp) in *. set (p := (ps `div` 2)%Z) in *.
  assert (ps = 2 * p + ps `mod` 2 ∧ 0 ≤ ps `mod` 2 < 2)%Z as [Hdm Hmod].
  { split; [apply Z.div_mod; lia|apply Z.mod_pos_bound; lia]. }
  assert (0 < ps →
          0 ≤ Z.of_nat row - p ∧ Z.of_nat row - p + ps ≤ Z.of_nat h ∧
          0 ≤ Z.of_nat col - p ∧ Z.of_nat col - p + ps ≤ Z.of_nat w)%Z as Hin.
  { intros Hps. destruct (decide (p > 0)%Z) as [Hp|Hp]; [specialize (Hfit Hp)|]; lia. }
  split.
  - intros Hps. unfold astype3. cbn [shape3].
    rewrite (shape3_transpose201 _ (slice_len h (Z.of_nat row - p) (Z.of_nat row - p + ps))
               (slice_len w (Z.of_nat col - p) (Z.of_nat col - p + ps)) ch).
    2:{ cbn. by apply shape3_slice3. }
    destruct (decide (ps = 0%Z)) as [Hz|Hnz].
    + rewrite Hz, !Z.add_0_r, !slice_len_empty. done.
    + rewrite !slice_len_inside by lia. repeat f_equal; lia.
  - intros c dy dx Hc' Hdy Hdx.
    assert (0 < ps)%Z as Hps by lia. specialize (Hin Hps).
    rewrite get3_astype3.
    rewrite (get3_transpose201 _ (slice_len h (Z.of_nat row - p) (Z.of_nat row - p + ps))
               (slice_len w (Z.of_nat col - p) (Z.of_nat col - p + ps)) ch); [| | |done].
    2:{ cbn. by apply shape3_slice3. }
    2:{ cbn. apply pixels_slice3. apply wf3_pixels in Hwf3. by rewrite Hs3 in Hwf3. }
    change (get3 (copy3 ?a)) with (get3 a).
    rewrite (get3_slice3 _ _ _ _ _ h w ch) by (done || lia).
    set (r' := Z.to_nat _). set (c' := Z.to_nat _).
    assert (is_Some (get3 data r' c' c)) as [v Hv].
    { destruct Hwf3 as [Hlen Hrows]. rewrite Hs3 in Hlen, Hrows. cbn in Hlen, Hrows.
      unfold get3.
      destruct (lookup_lt_is_Some_2 (items3 data) r') as [rw Hrw]; [lia|].
      rewrite Hrw. cbn. eapply Forall_lookup_1 in Hrows as [Hlw Hpx]; [|exact Hrw].
      destruct (lookup_lt_is_Some_2 rw c') as [px Hpix]; [lia|].
      rewrite Hpix. cbn. eapply Forall_lookup_1 in Hpx; [|exact Hpix].
      apply lookup_lt_is_Some_2. lia. }
    rewrite Hv. cbn. rewrite (Hfloat _ _ _ _ Hv). split; [by eexists|done].
Qed.

(** C6.  The size is the length of the stored index sequence; item access
    succeeds for every [i] with [0 <= i < size] and raises [IndexError]
    for every [i < 0] and every [i >= size]. *)
Theorem size_and_item_access data gt hp self :
  init data gt hp = Ok self →
  len self = Z.of_nat (length (indices self)) ∧
  ∀ i : Z,
    ((0 ≤ i < len self)%Z → succeeds (getitem as_float32 self i)) ∧
    ((i < 0 ∨ len self ≤ i)%Z → getitem as_float32 self i = Raise IndexError).
Proof.
  intros Hinit. split; [done|]. intros i. split.
  - intros Hi.
    destruct (getitem_in_range data gt hp self i Hinit Hi)
      as (r & c & l & _ & _ & _ & Hget).
    rewrite Hget. by eexists.
  - intros Hi. unfold getitem. by rewrite coordinate_out_of_range.
Qed.

(** C10.  With [patch_size = 0], item access at a valid index computes a
    window with [x2 = x1] and [y2 = y1], and the patch it returns has
    spatial dimensions 0 x 0 (not 1 x 1): every channel plane is empty. *)
Theorem zero_patch_size_gives_empty_patch data gt hp self (i : Z) :
  init data gt hp = Ok self →
  hp_patch_size hp = 0%Z →
  (0 ≤ i < len self)%Z →
  ∃ (row col : nat) (x1 y1 x2 y2 : Z) (patch : array3 pixel) (l : Z),
    indices self !! Z.to_nat i = Some (row, col) ∧
    window self row col = (x1, y1, x2, y2) ∧ x2 = x1 ∧ y2 = y1 ∧
    getitem as_float32 self i = Ok (patch, l) ∧
    shape3 patch = ((shape3 data).2, 0, 0) ∧
    shape3 patch ≠ ((shape3 data).2, 1, 1) ∧
    items3 patch = replicate (shape3 data).2 [].
Proof.
  intros Hinit Hps Hi.
  destruct (getitem_in_range data gt hp self i Hinit Hi)
    as (row & col & l & Hidx & _ & _ & Hget).
  pose proof (init_attrs _ _ _ _ Hinit) as (_ & _ & Hp & _).
  rewrite Hps in Hget. change (0 `div` 2)%Z with 0%Z in Hget.
  rewrite !Z.sub_0_r, !Z.add_0_r in Hget.
  exists row, col, (Z.of_nat row), (Z.of_nat col), (Z.of_nat row), (Z.of_nat col).
  eexists. exists l.
  split; [done|]. split.
  { unfold window. rewrite Hp, Hps. change (0 `div` 2)%Z with 0%Z.
    by rewrite !Z.sub_0_r, !Z.add_0_r. }
  split; [done|]. split; [done|]. split; [exact Hget|].
  destruct (shape3 data) as [[h w] ch] eqn:Hs.
  unfold astype3, transpose201, copy3, slice3. rewrite Hs.
  cbn -[slice slice_len]. rewrite !slice_len_empty, slice_empty. cbn.
  split; [done|]. split; [by intros [=]|].
  generalize 0 at 1. clear. induction ch as [|ch IH]; intros n; [done|].
  cbn. f_equal. apply IH.
Qed.

End Facts.

(** C2, counterexample.  An even patch size, a negative one and a label
    image that does not match the raster are all accepted. *)
Lemma init_accepts_invalid_arguments :
  succeeds (init Examples.image6 Examples.labels6 (Hyperparams 2 [])) ∧
  init Examples.image6 Examples.labels6 (Hyperparams 2 [])
    ≠ Raise ConfigurationError ∧
  succeeds (init Examples.image6 Examples.labels6 (Hyperparams (-3) [])) ∧
  init Examples.image6 Examples.labels6 (Hyperparams (-3) [])
    ≠ Raise ConfigurationError ∧
  shape2 Examples.labels3 ≠ ((shape3 Examples.image6).1.1, (shape3 Examples.image6).1.2) ∧
  succeeds (init Examples.image6 Examples.labels3 (Hyperparams 3 [])) ∧
  init Examples.image6 Examples.labels3 (Hyperparams 3 [])
    ≠ Raise ConfigurationError.
Proof.
  repeat split; try (eexists; vm_compute; reflexivity); by vm_compute.
Qed.

(** The scenario of the specification: the sample at [(3, 3)] is a
    1 x 3 x 3 patch with label [1]. *)
Example getitem_scenario :
  indices Examples.sampler6 !! 10 = Some (3, 3) ∧
  getitem (λ v : Z, v) Examples.sampler6 10
  = Ok (Array3 (1, 3, 3) [[[22; 23; 24]; [32; 33; 34]; [42; 43; 44]]]%Z, 1%Z).
Proof. split; by vm_compute. Qed.

Lemma index_set_characterised_witness :
  init Examples.image6 Examples.labels6 (Hyperparams 3 []) = Ok Examples.sampler6 ∧
  ((3, 3) ∈ indices Examples.sampler6 ↔
     (∃ l, get2 Examples.labels6 3 3 = Some l ∧ l ∉ @nil Z) ∧
     ((3 `div` 2 > 0)%Z →
        (3 `div` 2 ≤ 3 < 6 - 3 `div` 2)%Z ∧ (3 `div` 2 ≤ 3 < 6 - 3 `div` 2)%Z)) ∧
  (∃ self, init Examples.image6 Examples.labels6 (Hyperparams 3 []) = Ok self ∧
           indices self = Examples.inner16 ∧ length (indices self) = 16).
Proof.
  assert (init Examples.image6 Examples.labels6 (Hyperparams 3 [])
          = Ok Examples.sampler6) as Hinit by (vm_compute; reflexivity).
  split; [exact Hinit|]. split.
  - exact (proj1 index_set_characterised Examples.image6 Examples.labels6
             (Hyperparams 3 []) Examples.sampler6 Hinit 3 3).
  - exact (proj2 (proj2 index_set_characterised) Examples.image6 eq_refl).
Defined.

Lemma getitem_patch_and_label_witness :
  init Examples.image6 Examples.labels6 (Hyperparams 3 []) = Ok Examples.sampler6 ∧
  ∃ (row col : nat) (patch : array3 Z) (l : Z),
    indices Examples.sampler6 !! Z.to_nat 10 = Some (row, col) ∧
    getitem (λ v : Z, v) Examples.sampler6 10 = Ok (patch, l) ∧
    get2 Examples.labels6 row col = Some l ∧
    ((0 ≤ 3)%Z → shape3 patch = (1, Z.to_nat 3, Z.to_nat 3)) ∧
    ∀ c dy dx : nat,
      c < 1 → (Z.of_nat dy < 3)%Z → (Z.of_nat dx < 3)%Z →
      is_Some (get3 patch c dy dx) ∧
      get3 patch c dy dx =
        get3 Examples.image6
             (Z.to_nat (Z.of_nat row - 3 `div` 2 + Z.of_nat dy))
             (Z.to_nat (Z.of_nat col - 3 `div` 2 + Z.of_nat dx)) c.
Proof.
  assert (init Examples.image6 Examples.labels6 (Hyperparams 3 [])
          = Ok Examples.sampler6) as Hinit by (vm_compute; reflexivity).
  split; [exact Hinit|].
  apply (getitem_patch_and_label (λ v : Z, v) Examples.image6 Examples.labels6
           (Hyperparams 3 []) Examples.sampler6 6 6 1 10).
  - split; [reflexivity|]. vm_compute. repeat constructor.
  - split; [reflexivity|]. vm_compute. repeat constructor.
  - reflexivity.
  - reflexivity.
  - reflexivity.
  - exact Hinit.
  - vm_compute. split; [discriminate|reflexivity].
Defined.

Lemma size_and_item_access_witness :
  init Examples.image6 Examples.labels6 (Hyperparams 3 []) = Ok Examples.sampler6 ∧
  len Examples.sampler6 = 16%Z ∧
  succeeds (getitem (λ v : Z, v) Examples.sampler6 15) ∧
  getitem (λ v : Z, v) Examples.sampler6 16 = Raise IndexError ∧
  getitem (λ v : Z, v) Examples.sampler6 (-1) = Raise IndexError.
Proof.
  assert (init Examples.image6 Examples.labels6 (Hyperparams 3 [])
          = Ok Examples.sampler6) as Hinit by (vm_compute; reflexivity).
  split; [exact Hinit|].
  destruct (size_and_item_access (λ v : Z, v) Examples.image6 Examples.labels6
              (Hyperparams 3 []) Examples.sampler6 Hinit) as [Hlen Hacc].
  split; [exact Hlen|]. split; [|split].
  - apply (proj1 (Hacc 15%Z)). vm_compute. split; [discriminate|reflexivity].
  - apply (proj2 (Hacc 16%Z)). right. vm_compute. discriminate.
  - apply (proj2 (Hacc (-1)%Z)). left. reflexivity.
Defined.

Lemma zero_patch_size_gives_empty_patch_witness :
  init Examples.image6 Examples.labels6 (Hyperparams 0 [0%Z]) = Ok Examples.sampler0 ∧
  ∃ (row col : nat) (x1 y1 x2 y2 : Z) (patch : array3 Z) (l : Z),
    indices Examples.sampler0 !! Z.to_nat 0 = Some (row, col) ∧
    window Examples.sampler0 row col = (x1, y1, x2, y2) ∧ x2 = x1 ∧ y2 = y1 ∧
    getitem (λ v : Z, v) Examples.sampler0 0 = Ok (patch, l) ∧
    shape3 patch = (1, 0, 0) ∧ shape3 patch ≠ (1, 1, 1) ∧
    items3 patch = replicate 1 [].
Proof.
  assert (init Examples.image6 Examples.labels6 (Hyperparams 0 [0%Z])
          = Ok Examples.sampler0) as Hinit by (vm_compute; reflexivity).
  split; [exact Hinit|].
  apply (zero_patch_size_gives_empty_patch (λ v : Z, v) Examples.image6
           Examples.labels6 (Hyperparams 0 [0%Z]) Examples.sampler0 0 Hinit).
  - reflexivity.
  - vm_compute. split; [discriminate|reflexivity].
Defined.

End SamplerFacts.

(** ** Tensors *)

Module TorchFacts.

Lemma ravel_lt (s idx : list nat) :
  Forall2 lt idx s → ravel s idx < numel s.
Proof.
  induction 1 as [|i d idx s Hi _ IH]; cbn; [lia|].
  fold (numel s). nia.
Qed.

(** An offset computed from a multi-index leads back to that index. *)
Lemma unravel_ravel (s idx : list nat) :
  Forall2 lt idx s → unravel s (ravel s idx) = idx.
Proof.
  induction 1 as [|i d idx s Hi Hrest IH]; [done|].
  pose proof (ravel_lt s idx Hrest) as Hlt. cbn.
  assert (numel s ≠ 0) as Hne by lia.
  f_equal.
  - rewrite Nat.div_add_l by done. rewrite Nat.div_small by done. lia.
  - rewrite Nat.add_comm, Nat.Div0.mod_add. rewrite Nat.mod_small by done. exact IH.
Qed.

(** Merging the two leading axes does not move the elements. *)
Lemma ravel_merge (a n t : nat) (s idx : list nat) :
  ravel (a * n :: s) ((a * n + t) :: idx) = ravel (a :: n :: s) (a :: t :: idx) ∧
  ∀ g, ravel (g * n :: s) ((a * n + t) :: idx) = ravel (g :: n :: s) (a :: t :: idx).
Proof. split; [|intros g]; cbn; fold (numel s); lia. Qed.

End TorchFacts.

(** ** The kernel generator *)

Module GaborFacts.

Import Gabor TorchFacts.

Lemma floordiv_ok (a b : nat) : b ≠ 0 → floordiv a b = Ok (a `div` b).
Proof. intros Hb. unfold floordiv. by rewrite decide_False. Qed.

Lemma floordiv_zero (a : nat) : floordiv a 0 = Raise ZeroDivisionError.
Proof. done. Qed.

Section Facts.
Variable draw : nat → R.

(** Construction with at least sixteen output channels goes through. *)
Lemma init_ok (ic oc : nat) (k : ksize) (opts : conv_options) (nth pos : nat) :
  16 ≤ oc →
  ∃ g, init draw ic oc k opts nth pos = Ok g ∧
       in_channels g = ic ∧ out_channels g = oc ∧
       kernel_size g = super_init k ∧
       n_thetas g = oc `div` 16 ∧
       thetas g = linspace 0 (2 * PI) (oc `div` 16) ∧
       shape (gamma g) = [oc `div` (oc `div` 16); 1; ic; 1; 1].
Proof.
  intros Hoc. unfold init.
  assert (oc `div` 16 ≠ 0) as Hn.
  { pose proof (Nat.div_le_lower_bound oc 16 1). lia. }
  rewrite floordiv_ok by done. cbn. eexists. split; [reflexivity|]. done.
Qed.

(** Construction with fewer than sixteen output channels stops at the
    first [out_channels // n_thetas]. *)
Lemma init_small (ic oc : nat) (k : ksize) (opts : conv_options) (nth pos : nat) :
  oc < 16 → init draw ic oc k opts nth pos = Raise ZeroDivisionError.
Proof.
  intros Hoc. unfold init. by rewrite Nat.div_small, floordiv_zero.
Qed.

(** What a successful construction has built. *)
Lemma init_inversion (ic oc : nat) (k : ksize) (opts : conv_options)
    (nth pos : nat) (g : GaborFilters) :
  init draw ic oc k opts nth pos = Ok g →
  16 ≤ oc ∧
  in_channels g = ic ∧ out_channels g = oc ∧
  kernel_size g = super_init k ∧
  n_thetas g = oc `div` 16 ∧
  thetas g = linspace 0 (2 * PI) (oc `div` 16) ∧
  shape (gamma g) = [oc `div` (oc `div` 16); 1; ic; 1; 1].
Proof.
  intros Hg. destruct (decide (oc < 16)) as [Hlt|Hge].
  - by rewrite init_small in Hg.
  - destruct (init_ok ic oc k opts nth pos) as (g' & Hg' & H); [lia|].
    rewrite Hg in Hg'. injection Hg' as <-. split; [lia|done].
Qed.

(** C1 (as amended).  The constructor does not read its [n_thetas]
    argument and checks no divisibility: the orientation count is
    [out_channels // 16], construction never fails with
    [ConfigurationError], and with sixteen output channels or more it
    succeeds whatever the remainders are. *)
Theorem init_never_configuration_error (ic oc : nat) (k : ksize)
    (opts : conv_options) (nth pos : nat) :
  init draw ic oc k opts nth pos ≠ Raise ConfigurationError ∧
  (∀ nth', init draw ic oc k opts nth' pos = init draw ic oc k opts nth pos) ∧
  (16 ≤ oc →
   ∃ g, init draw ic oc k opts nth pos = Ok g ∧ n_thetas g = oc `div` 16).
Proof.
  split; [|split].
  - destruct (decide (oc < 16)) as [Hlt|Hge].
    + by rewrite init_small.
    + destruct (init_ok ic oc k opts nth pos) as (g & -> & _); [lia|done].
  - done.
  - intros Hoc. destruct (init_ok ic oc k opts nth pos Hoc) as (g & Hg & H).
    exists g. split; [done|]. apply H.
Qed.

(** C9.  With [0 < out_channels < 16] the orientation count
    [out_channels // 16] is [0], and construction raises
    [ZeroDivisionError] at the first [out_channels // n_thetas]; no
    [ConfigurationError] is involved. *)
Theorem init_divides_by_zero (ic oc : nat) (k : ksize) (opts : conv_options)
    (nth pos : nat) :
  0 < oc < 16 →
  oc `div` 16 = 0 ∧
  floordiv oc (oc `div` 16) = Raise ZeroDivisionError ∧
  init draw ic oc k opts nth pos = Raise ZeroDivisionError ∧
  init draw ic oc k opts nth pos ≠ Raise ConfigurationError.
Proof.
  intros [_ Hoc]. rewrite init_small by done. rewrite Nat.div_small by done.
  done.
Qed.

(** C3 (as amended).  The angle vector has length [n_thetas] and its
    angles are evenly spaced over the closed interval from [0] to [2 pi],
    both ends included: the [i]-th angle is [i * (2 pi / (n_thetas - 1))].
    With two orientations or more, the last angle is [2 pi]: it coincides
    with the first one modulo [2 pi]. *)
Theorem thetas_closed_interval (ic oc : nat) (k : ksize) (opts : conv_options)
    (nth pos : nat) (g : GaborFilters) :
  init draw ic oc k opts nth pos = Ok g →
  shape (thetas g) = [n_thetas g] ∧
  (∀ i, i < n_thetas g →
     at_ (thetas g) [i] = (INR i * (2 * PI / INR (n_thetas g - 1)))%R) ∧
  at_ (thetas g) [0] = 0%R ∧
  (2 ≤ n_thetas g →
     at_ (thetas g) [n_thetas g - 1] = (2 * PI)%R ∧
     (at_ (thetas g) [(n_thetas g - 1)%nat] - at_ (thetas g) [0%nat]
      = 2 * PI * IZR 1)%R).
Proof.
  intros Hg. apply init_inversion in Hg as (_ & _ & _ & _ & -> & -> & _).
  generalize (oc `div` 16). intros n. unfold linspace. cbn [shape at_ hd].
  split; [done|]. split; [|split].
  - intros i _. by rewrite Rminus_0_r, Rplus_0_l.
  - cbn [INR]. by rewrite Rmult_0_l, Rplus_0_l.
  - intros Hn. cbn [INR]. rewrite Rminus_0_r, !Rplus_0_l, Rmult_0_l, Rminus_0_r.
    assert (INR (n - 1) ≠ 0%R) as Hne by (apply not_0_INR; lia).
    split; field; done.
Qed.

(** The axis of an odd kernel size: [k] integers from [-(k-1)/2] to
    [(k-1)/2]. *)
Lemma axis_centered (k : nat) :
  Nat.Odd k →
  shape (axis k) = [k] ∧
  at_ (axis k) [0] = (- ((INR k - 1) / 2))%R ∧
  at_ (axis k) [k - 1] = ((INR k - 1) / 2)%R ∧
  ∀ i, i < k →
    (∃ z : Z, at_ (axis k) [i] = IZR z) ∧
    (- ((INR k - 1) / 2) <= at_ (axis k) [i] <= (INR k - 1) / 2)%R.
Proof.
  intros [m ->]. unfold axis, arange_minus. cbn [shape at_ hd].
  split; [done|]. split; [cbn [INR]; lra|]. split.
  - replace (2 * m + 1 - 1) with (2 * m) by lia.
    rewrite plus_INR, mult_INR. cbn [INR]. lra.
  - intros i Hi. split.
    + exists (Z.of_nat i - Z.of_nat m)%Z.
      rewrite minus_IZR, <- !INR_IZR_INZ, plus_INR, mult_INR. cbn [INR]. lra.
    + pose proof (pos_INR i) as H0.
      assert (i ≤ 2 * m) as Hle by lia. apply le_INR in Hle.
      rewrite plus_INR, mult_INR in *. cbn [INR] in *. lra.
Qed.

(** C7.  For a generator built by the constructor with an odd square
    kernel size [k] and an orientation count that divides [out_channels]
    (the invariants of the data model),
    kernel synthesis uses the centered integer axes of length [k] from
    [-(k-1)/2] to [(k-1)/2], rotates them by each fixed angle,
    [x' = x cos(theta) + y sin(theta)], [y' = -x sin(theta) + y cos(theta)],
    evaluates [exp(-0.5 (x'^2 + gamma^2 y'^2) / sigma^2) cos(2 pi x' / lambda + psi)]
    at every entry, and returns the bank under the shape
    [(out_channels, in_channels, k, k)]. *)
Theorem gabor_filter_formula (ic oc : nat) (ks : ksize) (k : nat)
    (opts : conv_options) (nth pos : nat) (g : GaborFilters) :
  init draw ic oc ks opts nth pos = Ok g →
  super_init ks = (k, k) →
  oc `mod` (oc `div` 16) = 0 →
  Nat.Odd k →
  (shape (axis k) = [k] ∧
   at_ (axis k) [0] = (- ((INR k - 1) / 2))%R ∧
   at_ (axis k) [k - 1] = ((INR k - 1) / 2)%R ∧
   ∀ i, i < k →
     (∃ z : Z, at_ (axis k) [i] = IZR z) ∧
     (- ((INR k - 1) / 2) <= at_ (axis k) [i] <= (INR k - 1) / 2)%R) ∧
  ∃ bank,
    gabor_filter g = Ok bank ∧
    shape bank = [oc; ic; k; k] ∧
    ∀ a t c i j : nat,
      a < oc `div` (oc `div` 16) → t < oc `div` 16 → c < ic → i < k → j < k →
      let theta := at_ (thetas g) [t] in
      let x := at_ (axis k) [i] in
      let y := at_ (axis k) [j] in
      let x' := (x * cos theta + y * sin theta)%R in
      let y' := (- x * sin theta + y * cos theta)%R in
      let lam := at_ (lambda_ g) [a; 0; c; 0; 0] in
      let ps := at_ (psi g) [a; 0; c; 0; 0] in
      let sig := at_ (sigma g) [a; 0; c; 0; 0] in
      let gam := at_ (gamma g) [a; 0; c; 0; 0] in
      at_ bank [a * (oc `div` 16) + t; c; i; j]
      = (exp (- (1 / 2) * (x' ^ 2 + gam ^ 2 * y' ^ 2) / sig ^ 2)
         * cos (2 * PI * x' / lam + ps))%R.
Proof.
  intros Hg Hks Hdiv Hodd. split; [by apply axis_centered|].
  apply init_inversion in Hg as (Hoc & Hic & Hout & Hk & Hn & _ & Hshape).
  rewrite Hks in Hk.
  set (n := oc `div` 16) in *.
  assert (n ≠ 0) as Hn0.
  { subst n. pose proof (Nat.div_le_lower_bound oc 16 1). lia. }
  assert (oc `div` n * n = oc) as Hgn.
  { pose proof (Nat.Div0.div_exact oc n) as [_ He]. specialize (He Hdiv). lia. }
  clearbody n. set (G := oc `div` n) in *. clearbody G.
  rewrite <- Hgn in Hout |- *. clear Hgn Hoc Hdiv.
  unfold gabor_filter, view. rewrite Hk, Hshape, Hn, Hic, Hout.
  cbn [fst snd hd shape].
  rewrite decide_True by (cbn; ring).
  eexists. split; [reflexivity|]. split; [done|].
  intros a t c i j Ha Ht Hc Hi Hj. cbn [at_ shape].
  rewrite (proj2 (ravel_merge a n t [ic; k; k] [c; i; j]) G).
  rewrite unravel_ravel by (repeat constructor; done).
  cbn zeta. unfold gb_entry, x_rot, y_rot. f_equal. f_equal.
  unfold Rdiv. ring.
Qed.

End Facts.

(** C1, counterexample.  [GaborFilters(3, 30, 11, n_thetas=16)]: thirty is
    not a multiple of sixteen, yet the object is built, with one
    orientation. *)
Lemma init_30_channels_accepted :
  30 `mod` 16 ≠ 0 ∧
  Gabor.init Examples.draw_half 3 30 (KInt 11) default_options 16 0
    ≠ Raise ConfigurationError ∧
  ∃ g, Gabor.init Examples.draw_half 3 30 (KInt 11) default_options 16 0 = Ok g ∧
       n_thetas g = 1.
Proof.
  destruct (init_ok Examples.draw_half 3 30 (KInt 11) default_options 16 0)
    as (g & Hg & _ & _ & _ & Hn & _); [lia|].
  split; [by vm_compute|]. split; [by rewrite Hg|]. by exists g.
Qed.

Lemma init_never_configuration_error_witness :
  16 ≤ 30 ∧
  Gabor.init Examples.draw_half 3 30 (KInt 11) default_options 16 0
    ≠ Raise ConfigurationError ∧
  ∃ g, Gabor.init Examples.draw_half 3 30 (KInt 11) default_options 16 0 = Ok g ∧
       n_thetas g = 30 `div` 16.
Proof.
  assert (16 ≤ 30) as Hoc by lia.
  split; [exact Hoc|].
  destruct (init_never_configuration_error Examples.draw_half 3 30 (KInt 11)
              default_options 16 0) as (Hne & _ & Hok).
  split; [exact Hne|]. exact (Hok Hoc).
Defined.

Lemma init_divides_by_zero_witness :
  0 < 8 < 16 ∧
  Gabor.init Examples.draw_half 3 8 (KInt 11) default_options 5 0
    = Raise ZeroDivisionError.
Proof.
  assert (0 < 8 < 16) as Hoc by lia.
  split; [exact Hoc|].
  exact (proj1 (proj2 (proj2 (init_divides_by_zero Examples.draw_half 3 8 (KInt 11)
                                 default_options 5 0 Hoc)))).
Defined.

(** C3, counterexample.  [GaborFilters(3, 64, 11)] has four angles: the
    second one is [2 pi / 3], not [2 pi / 4], and the fourth one is
    [2 pi], which is the first one modulo [2 pi]. *)
Lemma thetas_include_both_ends :
  ∃ g, Gabor.init Examples.draw_half 3 64 (KInt 11) default_options 5 0 = Ok g ∧
       n_thetas g = 4 ∧
       at_ (thetas g) [1] ≠ (INR 1 * (2 * PI / INR 4))%R ∧
       at_ (thetas g) [1] = (2 * PI / 3)%R ∧
       (at_ (thetas g) [3%nat] - at_ (thetas g) [0%nat] = 2 * PI * IZR 1)%R.
Proof.
  destruct (init_ok Examples.draw_half 3 64 (KInt 11) default_options 5 0)
    as (g & Hg & _ & _ & _ & Hn & Hth & _); [lia|].
  exists g. split; [done|]. split; [done|]. rewrite Hth.
  change (64 `div` 16) with 4. unfold linspace. cbn [at_ hd].
  change (4 - 1) with 3. rewrite !INR_IZR_INZ.
  change (Z.of_nat 0) with 0%Z. change (Z.of_nat 1) with 1%Z.
  change (Z.of_nat 3) with 3%Z. change (Z.of_nat 4) with 4%Z.
  pose proof PI_RGT_0. repeat split; lra.
Qed.

Lemma thetas_closed_interval_witness :
  ∃ g, Gabor.init Examples.draw_half 3 64 (KInt 11) default_options 5 0 = Ok g ∧
       shape (thetas g) = [n_thetas g] ∧
       at_ (thetas g) [0] = 0%R.
Proof.
  destruct (init_ok Examples.draw_half 3 64 (KInt 11) default_options 5 0)
    as (g & Hg & _); [lia|].
  exists g. split; [exact Hg|].
  destruct (thetas_closed_interval Examples.draw_half 3 64 (KInt 11) default_options
              5 0 g Hg) as (Hshape & _ & H0 & _).
  split; [exact Hshape|exact H0].
Defined.

Lemma gabor_filter_formula_witness :
  ∃ g bank,
    Gabor.init Examples.draw_half 3 64 (KInt 11) default_options 5 0 = Ok g ∧
    super_init (KInt 11) = (11, 11) ∧
    64 `mod` (64 `div` 16) = 0 ∧ Nat.Odd 11 ∧
    gabor_filter g = Ok bank ∧ shape bank = [64; 3; 11; 11].
Proof.
  destruct (init_ok Examples.draw_half 3 64 (KInt 11) default_options 5 0)
    as (g & Hg & _); [lia|].
  assert (64 `mod` (64 `div` 16) = 0) as Hdiv by reflexivity.
  assert (Nat.Odd 11) as Hodd by (exists 5; reflexivity).
  destruct (gabor_filter_formula Examples.draw_half 3 64 (KInt 11) 11
              default_options 5 0 g Hg eq_refl Hdiv Hodd)
    as (_ & bank & Hbank & Hshape & _).
  exists g, bank. repeat split; assumption.
Defined.

End GaborFacts.

(** ** Item access on objects *)

Module StoreFacts.

Import Store.

Section Facts.
Context {pixel : Type}.
Variable as_float32 : pixel → pixel.
Implicit Types (st : gmap loc (@object pixel)) (img : array3 pixel) (gt : array2 Z).

Lemma fresh_unused st : st !! fresh (dom st) = None.
Proof. apply not_elem_of_dom, is_fresh. Qed.

(** Allocation leaves every object of the store where it is. *)
Lemma insert_fresh_preserves st (o o' : @object pixel) (k : loc) :
  st !! k = Some o → <[fresh (dom st) := o']> st !! k = Some o.
Proof.
  intros Hk. rewrite lookup_insert_ne; [done|].
  intros <-. by rewrite fresh_unused in Hk.
Qed.

(** One call of [__getitem__]: the store grows by new objects only, and
    the returned handles sit on two of them. *)
Lemma getitem_run st (self d l : loc) (dt : dtype) img gt
    (ps : Z) (ign : gset Z) (h w : nat) (idx : list (nat * nat)) (lbls : list Z)
    (i : Z) (x y : nat) (z : Z) :
  let ds := Sampler.MkDataset img gt ps ign h w idx lbls in
  st !! self = Some (DatasetObj d l ps ign h w idx lbls) →
  st !! d = Some (Buffer3 dt img) →
  st !! l = Some (Buffer2 gt) →
  Sampler.coordinate ds i = Ok (x, y) →
  Sampler.raw_label ds x y = Ok z →
  ∃ (p : ndarray) (lab : loc) (st' : gmap loc (@object pixel)),
    getitem as_float32 self i st = (Ok (p, lab), st') ∧
    (∀ k o, st !! k = Some o → st' !! k = Some o) ∧
    st !! base p = None ∧ st !! lab = None ∧
    peek0 st' lab = Some z ∧
    peek3 st' p =
      Some (Float32,
            let '(x1, y1, x2, y2) := Sampler.window ds x y in
            let cut := transpose201 (copy3 (slice3 img x1 x2 y1 y2)) in
            if decide (dt = Float32) then cut else astype3 as_float32 cut).
Proof.
  intros ds Hself Hd Hl Hco Hlab.
  unfold getitem, bind, load_self, lift. cbn beta. rewrite Hself, Hd, Hl.
  fold ds. rewrite Hco. destruct (Sampler.window ds x y) as [[[x1 y1] x2] y2].
  rewrite Hlab.
  unfold np_copy, np_slice, bind, read3, peek3. cbn [base steps app].
  rewrite Hd. cbn [foldl apply_step fst snd]. unfold alloc at 1, ret at 1.
  set (lc := fresh (dom st)).
  set (st1 := <[lc := Buffer3 dt (copy3 (slice3 img x1 x2 y1 y2))]> st).
  assert (st !! lc = None) as Hc by apply fresh_unused.
  assert (∀ k o, st !! k = Some o → st1 !! k = Some o) as Hsub1.
  { intros k o. apply insert_fresh_preserves. }
  unfold np_asarray_float32, np_transpose, bind, read3, peek3.
  cbn [base steps app]. unfold st1 at 1. rewrite lookup_insert_eq.
  cbn [foldl apply_step fst snd].
  destruct (decide (dt = Float32)) as [Hdt|Hdt].
  - unfold ret at 1, np_copy_scalar, alloc at 1.
    set (ls := fresh (dom st1)).
    assert (st1 !! ls = None) as Hs by apply fresh_unused.
    unfold np_asarray_int64. rewrite lookup_insert_eq, decide_True by done.
    unfold ret. eexists _, _, _. split; [reflexivity|].
    cbn [base steps]. repeat split.
    + intros k o Hk. apply insert_fresh_preserves, Hsub1, Hk.
    + done.
    + destruct (st !! ls) as [o|] eqn:Hso; [|done].
      apply Hsub1 in Hso. by rewrite Hs in Hso.
    + unfold peek0. by rewrite lookup_insert_eq.
    + rewrite lookup_insert_ne.
      * unfold st1. rewrite lookup_insert_eq. by rewrite Hdt.
      * intros Heq. rewrite Heq in Hs. unfold st1 in Hs.
        by rewrite lookup_insert_eq in Hs.
  - unfold alloc at 1, ret at 1.
    set (lf := fresh (dom st1)).
    set (st2 := <[lf := Buffer3 Float32 _]> st1).
    assert (st1 !! lf = None) as Hf by apply fresh_unused.
    assert (∀ k o, st1 !! k = Some o → st2 !! k = Some o) as Hsub2.
    { intros k o. apply insert_fresh_preserves. }
    unfold np_copy_scalar, alloc at 1.
    set (ls := fresh (dom st2)).
    assert (st2 !! ls = None) as Hs by apply fresh_unused.
    unfold np_asarray_int64. rewrite lookup_insert_eq, decide_True by done.
    unfold ret. eexists _, _, _. split; [reflexivity|].
    cbn [base steps]. repeat split.
    + intros k o Hk. apply insert_fresh_preserves, Hsub2, Hsub1, Hk.
    + destruct (st !! lf) as [o|] eqn:Hfo; [|done].
      apply Hsub1 in Hfo. by rewrite Hf in Hfo.
    + destruct (st !! ls) as [o|] eqn:Hso; [|done].
      apply Hsub1, Hsub2 in Hso. by rewrite Hs in Hso.
    + unfold peek0. by rewrite lookup_insert_eq.
    + rewrite lookup_insert_ne.
      * unfold st2. by rewrite lookup_insert_eq.
      * intros Heq. rewrite Heq in Hs. unfold st2 in Hs.
        by rewrite lookup_insert_eq in Hs.
Qed.

(** What an array object shows depends on its buffer only. *)
Lemma peek3_preserved st st' (p : ndarray) :
  (∀ k o, st !! k = Some o → st' !! k = Some o) →
  is_Some (peek3 st p) → peek3 st' p = peek3 st p.
Proof.
  intros Hsub [v Hv]. unfold peek3 in *.
  destruct (st !! base p) as [o|] eqn:Ho; [|done].
  by rewrite (Hsub _ _ Ho).
Qed.

(** C8.  On a sampler built by [__init__], item access at [i] in
    [[0, size)] is deterministic and has no side effect: two calls in a
    row return patches and labels with the same values, every object that
    was in the store before a call (the sampler, the raster and the label
    image among them) is unchanged after it, and the arrays a call returns
    sit on buffers allocated by that call, so they alias neither the
    source arrays nor the result of the other call. *)
Theorem getitem_deterministic_and_fresh st (self d l : loc) (dt : dtype) img gt
    (hp : Sampler.hyperparams) (ds : Sampler.Dataset) (i : Z) :
  Sampler.init img gt hp = Ok ds →
  st !! self = Some (DatasetObj d l (Sampler.patch_size ds) (Sampler.ignored_labels ds)
                       (Sampler.height ds) (Sampler.width ds)
                       (Sampler.indices ds) (Sampler.labels ds)) →
  st !! d = Some (Buffer3 dt img) →
  st !! l = Some (Buffer2 gt) →
  (0 ≤ i < Sampler.len ds)%Z →
  ∃ (p1 : ndarray) (l1 : loc) (st1 : gmap loc (@object pixel))
    (p2 : ndarray) (l2 : loc) (st2 : gmap loc (@object pixel)),
    getitem as_float32 self i st = (Ok (p1, l1), st1) ∧
    getitem as_float32 self i st1 = (Ok (p2, l2), st2) ∧
    (is_Some (peek3 st1 p1) ∧ peek3 st2 p2 = peek3 st1 p1 ∧
     is_Some (peek0 st1 l1) ∧ peek0 st2 l2 = peek0 st1 l1) ∧
    (∀ k o, st !! k = Some o → st1 !! k = Some o ∧ st2 !! k = Some o) ∧
    peek3 st2 p1 = peek3 st1 p1 ∧
    (st !! base p1 = None ∧ st !! l1 = None ∧
     st1 !! base p2 = None ∧ st1 !! l2 = None) ∧
    (base p1 ≠ d ∧ base p1 ≠ l ∧ base p1 ≠ self ∧
     base p2 ≠ d ∧ base p2 ≠ l ∧ base p2 ≠ self ∧ base p2 ≠ base p1 ∧
     l1 ≠ l ∧ l2 ≠ l ∧ l2 ≠ l1) ∧
    ∃ (patch : array3 pixel) (z : Z) (shown : array3 pixel),
      Sampler.getitem as_float32 ds i = Ok (patch, z) ∧
      peek0 st1 l1 = Some z ∧
      peek3 st1 p1 = Some (Float32, shown) ∧
      (if decide (dt = Float32) then astype3 as_float32 shown else shown) = patch.
Proof.
  intros Hinit Hself Hd Hl Hi.
  destruct (SamplerFacts.getitem_in_range as_float32 img gt hp ds i Hinit Hi)
    as (x & y & z & Hidx & Hz & _ & Hpure).
  pose proof (SamplerFacts.init_attrs _ _ _ _ Hinit) as (Hdata & Hlabel & Hps & _).
  destruct (SamplerFacts.coordinate_ok ds i Hi) as (xy & Hxy & Hco).
  rewrite Hidx in Hxy. injection Hxy as <-.
  destruct ds as [img' gt' ps ign h w idx lbls]. cbn in Hdata, Hlabel, Hps, Hself.
  subst img' gt'.
  set (ds := Sampler.MkDataset img gt ps ign h w idx lbls) in *.
  assert (Sampler.raw_label ds x y = Ok z) as Hlab.
  { unfold Sampler.raw_label, item2. cbn. by rewrite Hz. }
  destruct (getitem_run st self d l dt img gt ps ign h w idx lbls i x y z
              Hself Hd Hl Hco Hlab)
    as (p1 & l1 & st1 & Hrun1 & Hsub1 & Hp1 & Hl1 & Hz1 & Hv1).
  destruct (getitem_run st1 self d l dt img gt ps ign h w idx lbls i x y z
              (Hsub1 _ _ Hself) (Hsub1 _ _ Hd) (Hsub1 _ _ Hl) Hco Hlab)
    as (p2 & l2 & st2 & Hrun2 & Hsub2 & Hp2 & Hl2 & Hz2 & Hv2).
  exists p1, l1, st1, p2, l2, st2.
  split; [done|]. split; [done|]. split.
  { rewrite Hv1, Hv2, Hz1, Hz2. by repeat split. }
  split; [by intros k o Hk; split; [|apply Hsub2]; apply Hsub1|].
  split; [apply peek3_preserved; [done|by rewrite Hv1]|].
  split; [done|].
  assert (is_Some (st1 !! base p1)) as [o1 Ho1].
  { unfold peek3 in Hv1. by destruct (st1 !! base p1). }
  assert (is_Some (st1 !! l1)) as [o1' Ho1'].
  { unfold peek0 in Hz1. by destruct (st1 !! l1). }
  split.
  { repeat split; intros Heq.
    - by rewrite Heq, Hd in Hp1.
    - by rewrite Heq, Hl in Hp1.
    - by rewrite Heq, Hself in Hp1.
    - by rewrite Heq, (Hsub1 _ _ Hd) in Hp2.
    - by rewrite Heq, (Hsub1 _ _ Hl) in Hp2.
    - by rewrite Heq, (Hsub1 _ _ Hself) in Hp2.
    - by rewrite Heq, Ho1 in Hp2.
    - by rewrite Heq, Hl in Hl1.
    - by rewrite Heq, (Hsub1 _ _ Hl) in Hl2.
    - by rewrite Heq, Ho1' in Hl2. }
  eexists _, z, _. split; [exact Hpure|]. split; [done|]. split; [exact Hv1|].
  rewrite Hps. unfold Sampler.window. cbn [Sampler.patch_size ds].
  by destruct (decide (dt = Float32)).
Qed.

End Facts.

Lemma getitem_deterministic_and_fresh_witness :
  Sampler.init Examples.image6 Examples.labels6 (Sampler.Hyperparams 3 [])
    = Ok Examples.sampler6 ∧
  ∃ (p1 : ndarray) (l1 : loc) (st1 : gmap loc (@object Z))
    (p2 : ndarray) (l2 : loc) (st2 : gmap loc (@object Z)),
    getitem (λ v : Z, v) 2 10 Examples.store6 = (Ok (p1, l1), st1) ∧
    getitem (λ v : Z, v) 2 10 st1 = (Ok (p2, l2), st2) ∧
    peek3 st2 p2 = peek3 st1 p1 ∧ peek0 st2 l2 = peek0 st1 l1 ∧
    st1 !! 0 = Examples.store6 !! 0 ∧
    base p1 ≠ 0 ∧ base p2 ≠ base p1.
Proof.
  assert (Sampler.init Examples.image6 Examples.labels6 (Sampler.Hyperparams 3 [])
          = Ok Examples.sampler6) as Hinit by (vm_compute; reflexivity).
  split; [exact Hinit|].
  destruct (getitem_deterministic_and_fresh (λ v : Z, v) Examples.store6 2 0 1
              OtherDtype Examples.image6 Examples.labels6
              (Sampler.Hyperparams 3 []) Examples.sampler6 10 Hinit)
    as (p1 & l1 & st1 & p2 & l2 & st2 & H1 & H2 & Hval & Hkeep & _ & _ & Hne & _).
  - vm_compute. reflexivity.
  - vm_compute. reflexivity.
  - vm_compute. reflexivity.
  - vm_compute. split; [discriminate|reflexivity].
  - exists p1, l1, st1, p2, l2, st2.
    split; [exact H1|]. split; [exact H2|].
    split; [exact (proj1 (proj2 Hval))|].
    split; [exact (proj2 (proj2 (proj2 Hval)))|].
    split.
    + exact (proj1 (Hkeep 0 (Buffer3 OtherDtype Examples.image6) eq_refl)).
    + split; [exact (proj1 Hne)|].
      exact (proj1 (proj2 (proj2 (proj2 (proj2 (proj2 (proj2 Hne))))))).
Defined.

End StoreFacts.

(** * Further properties *)

(** ** The patch sampler: what [__init__] stores *)

Module SamplerMore.

Import Sampler SamplerFacts Extra.

Lemma mapM_ok_inv {A B} (f : A → result B) (l : list A) (k : list B) :
  mapM f l = Ok k → Forall2 (λ x y, f x = Ok y) l k.
Proof.
  revert k. induction l as [|x l IH]; intros k; cbn.
  - intros [= <-]. constructor.
  - destruct (f x) as [y|e] eqn:Hy; cbn; [|done].
    destruct (mapM f l) as [k'|e]; cbn; [|done].
    intros [= <-]. constructor; [done|]. by apply IH.
Qed.

Lemma StronglySorted_filter {A} (R : relation A) (P : A → Prop)
    `{∀ x, Decision (P x)} (l : list A) :
  StronglySorted R l → StronglySorted R (filter P l).
Proof.
  induction 1 as [|x l _ IH Hx]; [constructor|].
  rewrite filter_cons. case_decide; [|done].
  constructor; [done|].
  apply Forall_forall. intros y Hy. apply list_elem_of_filter in Hy as [_ Hy].
  by eapply Forall_forall in Hx.
Qed.

Lemma StronglySorted_irrefl_NoDup {A} (R : relation A) (l : list A) :
  (∀ x, ¬ R x x) → StronglySorted R l → NoDup l.
Proof.
  intros Hirr. induction 1 as [|x l _ IH Hx]; constructor; [|done].
  intros Hin. eapply Forall_forall in Hx; [|exact Hin]. by apply Hirr in Hx.
Qed.

(** The non-zero columns of a row come in increasing order. *)
Lemma nonzero_row_from_sorted (k : nat) (row : list Z) :
  let cols := omap (λ o : option nat, o)
                (imap (λ (c : nat) (v : Z),
                         if decide (v = 0%Z) then None else Some (k + c)) row) in
  StronglySorted lt cols ∧ Forall (le k) cols.
Proof.
  revert k. induction row as [|v row IH]; intros k; cbn zeta.
  - split; constructor.
  - rewrite imap_cons.
    rewrite (imap_ext _ (λ (c : nat) (v : Z),
                           if decide (v = 0%Z) then None else Some (S k + c)))
      by (intros; cbn; case_decide; [done|f_equal; lia]).
    destruct (IH (S k)) as [Hs Hle]. cbn zeta in Hs, Hle.
    cbn. case_decide; cbn.
    + split; [done|]. eapply Forall_impl; [exact Hle|]. cbn. lia.
    + rewrite Nat.add_0_r. split.
      * constructor; [done|]. eapply Forall_impl; [exact Hle|]. cbn. lia.
      * constructor; [done|]. eapply Forall_impl; [exact Hle|]. cbn. lia.
Qed.

Lemma nonzero_row_sorted (row : list Z) : StronglySorted lt (nonzero_row row).
Proof. apply (nonzero_row_from_sorted 0 row). Qed.

(** [np.nonzero] lists the positions in row-major order. *)
Lemma nonzero_positions_from_sorted (k : nat) (rows : list (list Z)) :
  let pos := mjoin (imap (λ (r : nat) (row : list Z),
                            (λ c : nat, (k + r, c)) <$> nonzero_row row) rows) in
  StronglySorted row_major_lt pos ∧ Forall (λ xy, k ≤ xy.1) pos.
Proof.
  revert k. induction rows as [|row rows IH]; intros k; cbn zeta.
  - split; constructor.
  - rewrite imap_cons.
    rewrite (imap_ext _ (λ (r : nat) (row : list Z),
                           (λ c : nat, (S k + r, c)) <$> nonzero_row row))
      by (intros; cbn; apply list_fmap_ext; intros; f_equal; lia).
    destruct (IH (S k)) as [Hs Hle]. cbn zeta in Hs, Hle. cbn [mjoin list_join].
    rewrite Nat.add_0_r. split.
    + apply StronglySorted_app_2; [| |done].
      * intros a b Ha Hb. apply list_elem_of_fmap in Ha as (c & -> & _).
        eapply Forall_forall in Hle; [|exact Hb]. left. cbn in *. lia.
      * apply (StronglySorted_fmap _ lt); [|apply nonzero_row_sorted].
        intros c1 c2 Hc. right. cbn. done.
    + apply Forall_app. split.
      * apply Forall_forall. intros a Ha.
        apply list_elem_of_fmap in Ha as (c & -> & _). done.
      * eapply Forall_impl; [exact Hle|]. cbn. lia.
Qed.

Lemma nonzero_positions_sorted (mask : array2 Z) :
  StronglySorted row_major_lt (nonzero_positions mask).
Proof. apply (nonzero_positions_from_sorted 0 (items2 mask)). Qed.

Section Facts.
Context {pixel : Type}.
Variable as_float32 : pixel → pixel.
Implicit Types (data : array3 pixel) (gt : array2 Z) (hp : hyperparams).
Implicit Types (self : @Dataset pixel).

Lemma init_labels data gt hp self :
  init data gt hp = Ok self →
  mapM (λ xy : nat * nat, item2 gt xy.1 xy.2) (indices self) = Ok (labels self).
Proof.
  unfold init, nonzero. rewrite zip_fst_snd.
  destruct (mapM _ _) as [ls|e] eqn:Hls; cbn; [|done].
  intros [= <-]. exact Hls.
Qed.

(** X1.  The attribute [labels] runs parallel to [indices]: the two have
    the same length, the [k]-th label is the label of the [k]-th stored
    coordinate in the label image, and it is never an ignored one. *)
Theorem labels_parallel_to_indices data gt hp self :
  init data gt hp = Ok self →
  length (labels self) = length (indices self) ∧
  ∀ (k r c : nat), indices self !! k = Some (r, c) →
    ∃ l, labels self !! k = Some l ∧ get2 gt r c = Some l ∧
         l ∉ hp_ignored_labels hp.
Proof.
  intros Hinit. pose proof (init_labels _ _ _ _ Hinit) as Hls.
  apply mapM_ok_inv in Hls. split.
  - symmetry. by eapply Forall2_length.
  - intros k r c Hk.
    destruct (Forall2_lookup_l _ _ _ _ _ Hls Hk) as (l & Hl & Hitem).
    destruct (indices_labelled data gt hp self r c Hinit) as (l' & Hl' & Hign).
    { apply list_elem_of_lookup. eauto. }
    unfold item2 in Hitem. cbn in Hitem. rewrite Hl' in Hitem.
    injection Hitem as <-. eauto.
Qed.

(** The comprehension of [__init__] keeps the order of [np.nonzero]. *)
Lemma indices_sorted data gt hp self :
  init data gt hp = Ok self →
  StronglySorted row_major_lt (indices self).
Proof.
  intros Hinit. apply init_attrs in Hinit as (_ & _ & _ & ->). cbn zeta.
  case_decide.
  - apply StronglySorted_filter, nonzero_positions_sorted.
  - apply nonzero_positions_sorted.
Qed.

Lemma row_major_sorted_NoDup (l : list (nat * nat)) :
  StronglySorted row_major_lt l → NoDup l.
Proof.
  apply StronglySorted_irrefl_NoDup.
  intros [r c] [H|[_ H]]; cbn in H; lia.
Qed.

(** X2.  The stored coordinates are in row-major order, strictly
    increasing: no pixel is sampled twice. *)
Theorem indices_row_major data gt hp self :
  init data gt hp = Ok self →
  StronglySorted row_major_lt (indices self) ∧ NoDup (indices self).
Proof.
  intros Hinit. pose proof (indices_sorted data gt hp self Hinit) as Hs.
  split; [exact Hs|by apply row_major_sorted_NoDup].
Qed.

Lemma filter_none {A} (P : A → Prop) `{∀ x, Decision (P x)} (l : list A) :
  (∀ x, ¬ P x) → filter P l = [].
Proof.
  intros HP. induction l as [|x l IH]; [done|].
  rewrite filter_cons, decide_False by apply HP. exact IH.
Qed.

(** X3.  When the patch does not fit into the raster ([patch_size >= 2]
    and a raster side shorter than [patch_size]), construction still
    succeeds but no coordinate is kept: the size is [0] and every item
    access raises [IndexError]. *)
Theorem raster_smaller_than_patch data gt hp self :
  init data gt hp = Ok self →
  (2 ≤ hp_patch_size hp)%Z →
  (Z.of_nat (shape3 data).1.1 < hp_patch_size hp ∨
   Z.of_nat (shape3 data).1.2 < hp_patch_size hp)%Z →
  indices self = [] ∧ len self = 0%Z ∧
  ∀ i : Z, getitem as_float32 self i = Raise IndexError.
Proof.
  intros Hinit Hps Hsmall.
  pose proof (init_attrs _ _ _ _ Hinit) as (_ & _ & _ & Hidx).
  assert (hp_patch_size hp = 2 * (hp_patch_size hp `div` 2)
                             + hp_patch_size hp `mod` 2 ∧
          0 ≤ hp_patch_size hp `mod` 2 < 2)%Z as [Hdm Hmod].
  { split; [apply Z.div_mod; lia|apply Z.mod_pos_bound; lia]. }
  assert (indices self = []) as Hnil.
  { rewrite Hidx. cbn zeta. rewrite decide_True by lia.
    apply filter_none. intros [r c]. unfold fits. cbn. lia. }
  split; [done|]. split; [unfold len; by rewrite Hnil|].
  intros i. unfold getitem. rewrite coordinate_out_of_range; [done|].
  unfold len. rewrite Hnil. cbn. lia.
Qed.

(** X4.  With a positive margin [p = patch_size // 2], the size is at most
    the number of pixels of the inner rectangle,
    [(height - 2 p) * (width - 2 p)]. *)
Theorem size_at_most_inner_rectangle data gt hp self :
  init data gt hp = Ok self →
  (hp_patch_size hp `div` 2 > 0)%Z →
  (len self ≤
   Z.max 0 (Z.of_nat (shape3 data).1.1 - 2 * (hp_patch_size hp `div` 2))
   * Z.max 0 (Z.of_nat (shape3 data).1.2 - 2 * (hp_patch_size hp `div` 2)))%Z.
Proof.
  intros Hinit Hp.
  pose proof (row_major_sorted_NoDup _ (indices_sorted data gt hp self Hinit))
    as Hnd.
  pose proof (init_attrs _ _ _ _ Hinit) as (_ & _ & _ & Hidx).
  set (p := (hp_patch_size hp `div` 2)%Z) in *.
  set (h := (shape3 data).1.1) in *. set (w := (shape3 data).1.2) in *.
  set (rect := list_prod (seq (Z.to_nat p) (Z.to_nat (Z.of_nat h - 2 * p)))
                         (seq (Z.to_nat p) (Z.to_nat (Z.of_nat w - 2 * p)))).
  assert (indices self ⊆+ rect) as Hsub.
  { apply NoDup_submseteq; [done|]. intros [r c] Hin.
    rewrite Hidx in Hin. cbn zeta in Hin. rewrite decide_True in Hin by done.
    apply list_elem_of_filter in Hin as [Hf _]. unfold fits in Hf. cbn in Hf.
    apply list_elem_of_In, in_prod_iff. rewrite !in_seq. lia. }
  apply submseteq_length in Hsub. unfold rect in Hsub.
  rewrite length_prod, !length_seq in Hsub. unfold len. nia.
Qed.

(** The entries of a patch, on a well-formed and co-registered raster
    pair: the conversion of the raster values of the window. *)
Lemma getitem_entries data gt hp self (h w ch : nat) (i : Z) :
  wf3 data → wf2 gt → shape3 data = (h, w, ch) → shape2 gt = (h, w) →
  init data gt hp = Ok self →
  (0 ≤ i < len self)%Z →
  ∃ (row col : nat) (patch : array3 pixel) (l : Z),
    indices self !! Z.to_nat i = Some (row, col) ∧
    getitem as_float32 self i = Ok (patch, l) ∧
    get2 gt row col = Some l ∧
    ∀ c dy dx : nat,
      c < ch →
      (Z.of_nat dy < hp_patch_size hp)%Z → (Z.of_nat dx < hp_patch_size hp)%Z →
      ∃ v,
        get3 data (Z.to_nat (Z.of_nat row - hp_patch_size hp `div` 2 + Z.of_nat dy))
                  (Z.to_nat (Z.of_nat col - hp_patch_size hp `div` 2 + Z.of_nat dx))
                  c = Some v ∧
        get3 patch c dy dx = Some (as_float32 v).
Proof.
  intros Hwf3 Hwf2 Hs3 Hs2 Hinit Hi.
  destruct (getitem_in_range as_float32 data gt hp self i Hinit Hi)
    as (row & col & l & Hidx & Hl & _ & Hget).
  exists row, col. eexists. exists l.
  split; [done|]. split; [exact Hget|]. split; [done|].
  destruct (indices_bounds data gt hp self row col Hinit Hwf2) as (Hr & Hc & Hfit).
  { apply list_elem_of_lookup. eauto. }
  rewrite Hs2 in Hr, Hc. rewrite Hs3 in Hfit. cbn in Hr, Hc, Hfit.
  set (ps := hp_patch_size hp) in *. set (p := (ps `div` 2)%Z) in *.
  assert (ps = 2 * p + ps `mod` 2 ∧ 0 ≤ ps `mod` 2 < 2)%Z as [Hdm Hmod].
  { split; [apply Z.div_mod; lia|apply Z.mod_pos_bound; lia]. }
  intros c dy dx Hc' Hdy Hdx.
  assert (0 ≤ Z.of_nat row - p ∧ Z.of_nat row - p + ps ≤ Z.of_nat h ∧
          0 ≤ Z.of_nat col - p ∧ Z.of_nat col - p + ps ≤ Z.of_nat w)%Z as Hin.
  { destruct (decide (p > 0)%Z) as [Hp|Hp]; [specialize (Hfit Hp)|]; lia. }
  rewrite NumpyFacts.get3_astype3.
  rewrite (NumpyFacts.get3_transpose201 _
             (slice_len h (Z.of_nat row - p) (Z.of_nat row - p + ps))
             (slice_len w (Z.of_nat col - p) (Z.of_nat col - p + ps)) ch);
    [| | |done].
  2:{ cbn. by apply NumpyFacts.shape3_slice3. }
  2:{ cbn. apply NumpyFacts.pixels_slice3.
      apply NumpyFacts.wf3_pixels in Hwf3. by rewrite Hs3 in Hwf3. }
  change (get3 (copy3 ?a)) with (get3 a).
  rewrite (NumpyFacts.get3_slice3 _ _ _ _ _ h w ch) by (done || lia).
  set (r' := Z.to_nat _). set (c' := Z.to_nat _).
  assert (is_Some (get3 data r' c' c)) as [v Hv].
  { destruct Hwf3 as [Hlen Hrows]. rewrite Hs3 in Hlen, Hrows. cbn in Hlen, Hrows.
    unfold get3.
    destruct (lookup_lt_is_Some_2 (items3 data) r') as [rw Hrw]; [lia|].
    rewrite Hrw. cbn. eapply Forall_lookup_1 in Hrows as [Hlw Hpx]; [|exact Hrw].
    destruct (lookup_lt_is_Some_2 rw c') as [px Hpix]; [lia|].
    rewrite Hpix. cbn. eapply Forall_lookup_1 in Hpx; [|exact Hpix].
    apply lookup_lt_is_Some_2. lia. }
  exists v. by rewrite Hv.
Qed.

End Facts.

Lemma labels_parallel_to_indices_witness :
  init Examples.image6 Examples.labels6 (Hyperparams 3 []) = Ok Examples.sampler6 ∧
  length (labels Examples.sampler6) = length (indices Examples.sampler6) ∧
  ∃ l, labels Examples.sampler6 !! 10 = Some l ∧
       get2 Examples.labels6 3 3 = Some l ∧ l ∉ @nil Z.
Proof.
  assert (init Examples.image6 Examples.labels6 (Hyperparams 3 [])
          = Ok Examples.sampler6) as Hinit by (vm_compute; reflexivity).
  split; [exact Hinit|].
  destruct (labels_parallel_to_indices Examples.image6 Examples.labels6
              (Hyperparams 3 []) Examples.sampler6 Hinit) as [Hlen Hk].
  split; [exact Hlen|]. exact (Hk 10 3 3 eq_refl).
Defined.

Lemma indices_row_major_witness :
  init Examples.image6 Examples.labels6 (Hyperparams 3 []) = Ok Examples.sampler6 ∧
  NoDup (indices Examples.sampler6).
Proof.
  assert (init Examples.image6 Examples.labels6 (Hyperparams 3 [])
          = Ok Examples.sampler6) as Hinit by (vm_compute; reflexivity).
  split; [exact Hinit|].
  exact (proj2 (indices_row_major Examples.image6 Examples.labels6
                  (Hyperparams 3 []) Examples.sampler6 Hinit)).
Defined.

Lemma raster_smaller_than_patch_witness :
  ∃ self, init image2 labels2 (Hyperparams 3 []) = Ok self ∧
          (2 ≤ 3)%Z ∧ (Z.of_nat 2 < 3)%Z ∧
          indices self = [] ∧
          getitem (λ v : Z, v) self 0 = Raise IndexError.
Proof.
  destruct (init_total image2 labels2 (Hyperparams 3 [])) as [self Hself].
  exists self. split; [exact Hself|].
  assert (2 ≤ 3)%Z as H2 by (vm_compute; discriminate).
  assert (Z.of_nat 2 < 3)%Z as H3 by reflexivity.
  split; [exact H2|]. split; [exact H3|].
  destruct (raster_smaller_than_patch (λ v : Z, v) image2 labels2 (Hyperparams 3 [])
              self Hself H2 (or_introl H3)) as (Hnil & _ & Hget).
  split; [exact Hnil|exact (Hget 0%Z)].
Defined.

Lemma size_at_most_inner_rectangle_witness :
  init Examples.image6 Examples.labels6 (Hyperparams 3 []) = Ok Examples.sampler6 ∧
  (3 `div` 2 > 0)%Z ∧
  (len Examples.sampler6 ≤ Z.max 0 (6 - 2 * (3 `div` 2)) * Z.max 0 (6 - 2 * (3 `div` 2)))%Z.
Proof.
  assert (init Examples.image6 Examples.labels6 (Hyperparams 3 [])
          = Ok Examples.sampler6) as Hinit by (vm_compute; reflexivity).
  assert (3 `div` 2 > 0)%Z as Hp by reflexivity.
  split; [exact Hinit|]. split; [exact Hp|].
  exact (size_at_most_inner_rectangle Examples.image6 Examples.labels6
           (Hyperparams 3 []) Examples.sampler6 Hinit Hp).
Defined.

End SamplerMore.

(** ** Loading the rasters: relabelling and transposition *)

Module LoadingFacts.

Import Loading SamplerFacts NumpyFacts.

(** The class ids found by [np.unique] are the values of the array, each
    once, in increasing order. *)
Lemma elem_of_np_unique (gt : array2 Z) (v : Z) :
  v ∈ np_unique gt ↔ ∃ r c, get2 gt r c = Some v.
Proof.
  unfold np_unique. rewrite merge_sort_Permutation, elem_of_remove_dups.
  rewrite list_elem_of_join. unfold get2. split.
  - intros (row & Hv & Hrow).
    apply list_elem_of_lookup in Hrow as [r Hr].
    apply list_elem_of_lookup in Hv as [c Hc].
    exists r, c. by rewrite Hr.
  - intros (r & c & Hrc).
    destruct (items2 gt !! r) as [row|] eqn:Hr; cbn in Hrc; [|done].
    exists row. split; apply list_elem_of_lookup; eauto.
Qed.

Lemma StronglySorted_le_NoDup_lt (l : list Z) :
  StronglySorted Z.le l → NoDup l → StronglySorted Z.lt l.
Proof.
  induction 1 as [|x l _ IH Hx]; intros Hnd; [constructor|].
  apply NoDup_cons in Hnd as [Hnin Hnd]. constructor; [by apply IH|].
  apply Forall_forall. intros y Hy.
  eapply Forall_forall in Hx; [|exact Hy].
  assert (x ≠ y) by (by intros ->). lia.
Qed.

Lemma np_unique_sorted (gt : array2 Z) : StronglySorted Z.lt (np_unique gt).
Proof.
  apply StronglySorted_le_NoDup_lt.
  - apply StronglySorted_merge_sort; apply _.
  - unfold np_unique. rewrite merge_sort_Permutation. apply NoDup_remove_dups.
Qed.

Lemma sorted_lookup_lt (l : list Z) (i j : nat) (a b : Z) :
  StronglySorted Z.lt l → l !! i = Some a → l !! j = Some b → i < j → (a < b)%Z.
Proof.
  intros Hs. revert i j. induction Hs as [|x l _ IH Hx]; intros i j Hi Hj Hij.
  - done.
  - destruct j as [|j]; [lia|]. cbn in Hj. destruct i as [|i]; cbn in Hi.
    + injection Hi as <-. eapply Forall_forall in Hx; [exact Hx|].
      apply list_elem_of_lookup. eauto.
    + eapply IH; [exact Hi|exact Hj|lia].
Qed.

Lemma sorted_lookup_inj (l : list Z) (i j : nat) (a : Z) :
  StronglySorted Z.lt l → l !! i = Some a → l !! j = Some a → i = j.
Proof.
  intros Hs Hi Hj. destruct (Nat.lt_trichotomy i j) as [H|[H|H]]; [|done|].
  - pose proof (sorted_lookup_lt l i j a a Hs Hi Hj H). lia.
  - pose proof (sorted_lookup_lt l j i a a Hs Hj Hi H). lia.
Qed.

(** The relabelling loop acts on every entry by itself. *)
Lemma foldl_assign_where_eq (pairs : list (nat * Z)) (gt : array2 Z) :
  foldl (λ (g : array2 Z) (ic : nat * Z), assign_where_eq g ic.2 ic.1) gt pairs
  = Array2 (shape2 gt)
      ((λ row : list Z,
          (λ v : Z,
             foldl (λ (cur : Z) (ic : nat * Z),
                      if decide (ic.2 = cur) then uint8 (Z.of_nat ic.1) else cur)
                   v pairs) <$> row) <$> items2 gt).
Proof.
  revert gt. induction pairs as [|[i c] pairs IH]; intros gt; cbn [foldl].
  - destruct gt as [s its]. cbn. f_equal.
    rewrite <- (list_fmap_id its) at 1. apply list_fmap_ext. intros _ row _.
    by rewrite list_fmap_id.
  - rewrite IH. unfold assign_where_eq. cbn [shape2 items2 fst snd]. f_equal.
    rewrite <- list_fmap_compose. apply list_fmap_ext. intros _ row _. cbn.
    rewrite <- list_fmap_compose. by apply list_fmap_ext.
Qed.

(** One value through the loop over a strictly increasing list of class
    ids, numbered from [off]: a class id becomes its number, any other
    value stays. *)
Lemma relabel_value (s : list Z) (off : nat) (cur : Z) :
  StronglySorted Z.lt s →
  Forall (λ c, Z.of_nat off ≤ c < 256)%Z s →
  let res := foldl (λ (cur : Z) (ic : nat * Z),
                      if decide (ic.2 = cur) then uint8 (Z.of_nat ic.1) else cur)
                   cur (imap (λ (i : nat) (c : Z), (off + i, c)) s) in
  (cur ∉ s → res = cur) ∧
  (∀ j, s !! j = Some cur → res = Z.of_nat (off + j)).
Proof.
  intros Hs. revert off cur. induction Hs as [|c s Hs IH Hc]; intros off cur Hr.
  - cbn. split; [done|]. intros j Hj. done.
  - apply Forall_cons in Hr as [Hrc Hr].
    assert (Forall (λ c', Z.of_nat (S off) ≤ c' < 256)%Z s) as Hr'.
    { apply Forall_forall. intros c' Hc'.
      eapply Forall_forall in Hc; [|exact Hc'].
      eapply Forall_forall in Hr; [|exact Hc']. lia. }
    cbn zeta. rewrite imap_cons. cbn [foldl fst snd].
    rewrite (imap_ext _ (λ (i : nat) (c : Z), (S off + i, c)))
      by (intros; cbn; f_equal; lia).
    rewrite Nat.add_0_r. split.
    + intros Hnin. apply not_elem_of_cons in Hnin as [Hne Hnin].
      rewrite decide_False by done. by apply (IH (S off) cur Hr').
    + intros [|j] Hj; cbn in Hj.
      * injection Hj as ->. rewrite decide_True by done.
        unfold uint8. rewrite Z.mod_small by lia.
        rewrite Nat.add_0_r. apply (IH (S off) _ Hr').
        intros Hin. eapply Forall_forall in Hc; [|exact Hin]. lia.
      * assert (c < cur)%Z as Hlt.
        { eapply Forall_forall in Hc; [exact Hc|]. apply list_elem_of_lookup. eauto. }
        rewrite decide_False by lia.
        rewrite (proj2 (IH (S off) cur Hr') j Hj). f_equal. lia.
Qed.

Lemma sorted_lookup_ge (s : list Z) (off j : nat) (v : Z) :
  StronglySorted Z.lt s → Forall (λ c, Z.of_nat off ≤ c)%Z s →
  s !! j = Some v → (Z.of_nat (off + j) ≤ v)%Z.
Proof.
  intros Hs. revert off j. induction Hs as [|c s _ IH Hc]; intros off j Hr Hj.
  - done.
  - apply Forall_cons in Hr as [Hrc Hr]. destruct j as [|j]; cbn in Hj.
    + injection Hj as <-. lia.
    + replace (off + S j) with (S off + j) by lia. apply IH; [|done].
      apply Forall_forall. intros c' Hc'.
      eapply Forall_forall in Hc; [|exact Hc']. lia.
Qed.

Lemma get2_relabel (gt : array2 Z) (r c : nat) :
  get2 (relabel gt) r c
  = (λ v, foldl (λ (cur : Z) (ic : nat * Z),
                   if decide (ic.2 = cur) then uint8 (Z.of_nat ic.1) else cur)
                v (enumerate (np_unique gt))) <$> get2 gt r c.
Proof.
  unfold relabel. rewrite foldl_assign_where_eq. unfold get2. cbn.
  rewrite list_lookup_fmap. destruct (items2 gt !! r) as [row|]; cbn; [|done].
  by rewrite list_lookup_fmap.
Qed.

(** Every class id is replaced by its position in [np.unique(gt)]. *)
Lemma relabel_rank (gt : array2 Z) (r c : nat) (v : Z) :
  (∀ r c v, get2 gt r c = Some v → (0 ≤ v < 256)%Z) →
  get2 gt r c = Some v →
  ∃ k, np_unique gt !! k = Some v ∧
       get2 (relabel gt) r c = Some (Z.of_nat k) ∧ (Z.of_nat k ≤ v)%Z.
Proof.
  intros Hrange Hv.
  assert (Forall (λ c, Z.of_nat 0 ≤ c < 256)%Z (np_unique gt)) as Hu.
  { apply Forall_forall. intros v' Hv'.
    apply elem_of_np_unique in Hv' as (r' & c' & Hv'). apply Hrange in Hv'. lia. }
  pose proof (np_unique_sorted gt) as Hs.
  assert (v ∈ np_unique gt) as Hin by (apply elem_of_np_unique; eauto).
  apply list_elem_of_lookup in Hin as [k Hk]. exists k. split; [done|]. split.
  - rewrite get2_relabel, Hv. cbn. f_equal.
    pose proof (relabel_value (np_unique gt) 0 v Hs Hu) as [_ Hres].
    cbn zeta in Hres. unfold enumerate.
    rewrite (imap_ext _ (λ (i : nat) (c : Z), (0 + i, c))) by done.
    by rewrite (Hres k Hk).
  - apply (sorted_lookup_ge (np_unique gt) 0 k v Hs); [|done].
    eapply Forall_impl; [exact Hu|]. cbn. lia.
Qed.

(** X5.  On a label image of dtype [uint8], the relabelling loop replaces
    every class id by its rank among the distinct class ids in increasing
    order; the new ids are exactly [0, 1, ..., K - 1] for [K] distinct
    classes, and the shape is unchanged. *)
Theorem relabel_is_rank (gt : array2 Z) :
  (∀ r c v, get2 gt r c = Some v → (0 ≤ v < 256)%Z) →
  shape2 (relabel gt) = shape2 gt ∧
  StronglySorted Z.lt (np_unique gt) ∧
  (∀ r c v, get2 gt r c = Some v →
     ∃ k, np_unique gt !! k = Some v ∧ get2 (relabel gt) r c = Some (Z.of_nat k)) ∧
  (∀ r c, get2 gt r c = None → get2 (relabel gt) r c = None) ∧
  (∀ k, k < length (np_unique gt) →
     ∃ r c, get2 (relabel gt) r c = Some (Z.of_nat k)).
Proof.
  intros Hrange. pose proof (np_unique_sorted gt) as Hs.
  split; [|split; [done|split; [|split]]].
  - unfold relabel. by rewrite foldl_assign_where_eq.
  - intros r c v Hv. destruct (relabel_rank gt r c v Hrange Hv) as (k & ? & ? & _).
    eauto.
  - intros r c Hnone. by rewrite get2_relabel, Hnone.
  - intros k Hk. apply lookup_lt_is_Some_2 in Hk as [v Hv].
    assert (v ∈ np_unique gt) as Hin by (apply list_elem_of_lookup; eauto).
    apply elem_of_np_unique in Hin as (r & c & Hrc).
    destruct (relabel_rank gt r c v Hrange Hrc) as (k' & Hk' & Hnew & _).
    rewrite (sorted_lookup_inj _ k k' v Hs Hv Hk'). eauto.
Qed.

(** X6.  Relabelling keeps the classes and their order: two pixels get
    the same new id exactly when they had the same class id, a smaller
    new id exactly when they had a smaller class id, and no id grows. *)
Theorem relabel_preserves_classes (gt : array2 Z)
    (r1 c1 r2 c2 : nat) (v1 v2 : Z) :
  (∀ r c v, get2 gt r c = Some v → (0 ≤ v < 256)%Z) →
  get2 gt r1 c1 = Some v1 → get2 gt r2 c2 = Some v2 →
  ∃ n1 n2 : Z,
    get2 (relabel gt) r1 c1 = Some n1 ∧ get2 (relabel gt) r2 c2 = Some n2 ∧
    (n1 = n2 ↔ v1 = v2) ∧ (n1 < n2 ↔ v1 < v2)%Z ∧ (0 ≤ n1 ≤ v1)%Z.
Proof.
  intros Hrange H1 H2. pose proof (np_unique_sorted gt) as Hs.
  destruct (relabel_rank gt r1 c1 v1 Hrange H1) as (k1 & Hk1 & Hn1 & Hle1).
  destruct (relabel_rank gt r2 c2 v2 Hrange H2) as (k2 & Hk2 & Hn2 & _).
  exists (Z.of_nat k1), (Z.of_nat k2). split; [done|]. split; [done|].
  destruct (Nat.lt_trichotomy k1 k2) as [Hlt|[->|Hgt]].
  - pose proof (sorted_lookup_lt _ _ _ _ _ Hs Hk1 Hk2 Hlt). lia.
  - rewrite Hk1 in Hk2. injection Hk2 as ->. lia.
  - pose proof (sorted_lookup_lt _ _ _ _ _ Hs Hk2 Hk1 Hgt). lia.
Qed.

Lemma seqZ_like_sorted (j n : nat) :
  StronglySorted Z.lt (Z.of_nat <$> seq j n).
Proof.
  revert j. induction n as [|n IH]; intros j; cbn; constructor; [apply IH|].
  apply Forall_forall. intros z Hz.
  apply list_elem_of_fmap in Hz as (k & -> & Hk).
  apply elem_of_seq in Hk. lia.
Qed.

(** After relabelling, the class ids found by [np.unique] are
    [0, 1, ..., K - 1]. *)
Lemma np_unique_relabel (gt : array2 Z) :
  (∀ r c v, get2 gt r c = Some v → (0 ≤ v < 256)%Z) →
  np_unique (relabel gt) = Z.of_nat <$> seq 0 (length (np_unique gt)) ∧
  length (np_unique gt) ≤ 256.
Proof.
  intros Hrange. pose proof (np_unique_sorted gt) as Hs. split.
  - apply (StronglySorted_unique_strong Z.lt).
    + intros; lia.
    + apply np_unique_sorted.
    + apply seqZ_like_sorted.
    + apply NoDup_Permutation.
      * eapply (SamplerMore.StronglySorted_irrefl_NoDup Z.lt);
          [intros; lia|apply np_unique_sorted].
      * eapply (SamplerMore.StronglySorted_irrefl_NoDup Z.lt);
          [intros; lia|apply seqZ_like_sorted].
      * intros n. rewrite elem_of_np_unique, list_elem_of_fmap. split.
        -- intros (r & c & Hn). rewrite get2_relabel in Hn.
           destruct (get2 gt r c) as [v|] eqn:Hv; [|done].
           destruct (relabel_rank gt r c v Hrange Hv) as (k & Hk & Hnew & _).
           rewrite get2_relabel, Hv in Hnew. rewrite Hn in Hnew.
           injection Hnew as ->. exists k. split; [done|].
           apply elem_of_seq. apply lookup_lt_Some in Hk. lia.
        -- intros (k & -> & Hk). apply elem_of_seq in Hk.
           destruct (lookup_lt_is_Some_2 (np_unique gt) k) as [v Hv]; [lia|].
           assert (v ∈ np_unique gt) as Hin by (apply list_elem_of_lookup; eauto).
           apply elem_of_np_unique in Hin as (r & c & Hrc).
           destruct (relabel_rank gt r c v Hrange Hrc) as (k' & Hk' & Hnew & _).
           rewrite (sorted_lookup_inj _ k k' v Hs Hv Hk'). eauto.
  - destruct (np_unique gt) as [|v0 u] eqn:Hu; [cbn; lia|].
    destruct (lookup_lt_is_Some_2 (v0 :: u) (length u)) as [v Hv]; [cbn; lia|].
    rewrite <- Hu in Hv, Hs.
    assert (v ∈ np_unique gt) as Hin by (apply list_elem_of_lookup; eauto).
    apply elem_of_np_unique in Hin as (r & c & Hrc). apply Hrange in Hrc.
    pose proof (sorted_lookup_ge (np_unique gt) 0 (length u) v Hs) as Hge.
    cbn [length]. cut (Z.of_nat (0 + length u) ≤ v)%Z; [lia|].
    apply Hge; [|done]. apply Forall_forall. intros v' Hv'.
    apply elem_of_np_unique in Hv' as (r' & c' & Hv'). apply Hrange in Hv'. lia.
Qed.

(** X7.  Relabelling is idempotent: on a label image of dtype [uint8],
    running the loop a second time changes nothing. *)
Theorem relabel_idempotent (gt : array2 Z) :
  (∀ r c v, get2 gt r c = Some v → (0 ≤ v < 256)%Z) →
  relabel (relabel gt) = relabel gt.
Proof.
  intros Hrange. destruct (np_unique_relabel gt Hrange) as [Hu HK].
  set (K := length (np_unique gt)) in *.
  unfold relabel at 1. rewrite foldl_assign_where_eq, Hu.
  destruct (relabel gt) as [sh its] eqn:Hrel. cbn [shape2 items2]. f_equal.
  rewrite <- (list_fmap_id its) at 2. apply list_fmap_ext. intros r row Hrow.
  rewrite <- (list_fmap_id row) at 2. apply list_fmap_ext. intros c n Hn. cbn.
  assert (get2 (relabel gt) r c = Some n) as Hget.
  { rewrite Hrel. unfold get2. cbn. by rewrite Hrow. }
  rewrite get2_relabel in Hget.
  destruct (get2 gt r c) as [v|] eqn:Hv; [|done].
  destruct (relabel_rank gt r c v Hrange Hv) as (k & Hk & Hnew & _).
  rewrite get2_relabel, Hv in Hnew. rewrite Hget in Hnew. injection Hnew as ->.
  apply lookup_lt_Some in Hk. fold K in Hk.
  pose proof (relabel_value (Z.of_nat <$> seq 0 K) 0 (Z.of_nat k)
                (seqZ_like_sorted 0 K)) as Hval.
  destruct Hval as [_ Hres].
  { apply Forall_forall. intros z Hz.
    apply list_elem_of_fmap in Hz as (j & -> & Hj). apply elem_of_seq in Hj. lia. }
  cbn zeta in Hres. unfold enumerate.
  rewrite (imap_ext _ (λ (i : nat) (c : Z), (0 + i, c))) by done.
  rewrite (Hres k); [done|].
  rewrite list_lookup_fmap, lookup_seq_lt by done. done.
Qed.

Section Transposition.
Context {A : Type}.

Lemma lookup_omap_total {B} (f : B → option A) (l : list B) (k : nat) :
  Forall (λ x, is_Some (f x)) l → omap f l !! k = (x ← l !! k; f x).
Proof.
  intros Hl. revert k. induction Hl as [|x l [y Hy] _ IH]; intros k; [done|].
  cbn. rewrite Hy. destruct k as [|k]; cbn; [done|]. apply IH.
Qed.

Lemma length_omap_total {B} (f : B → option A) (l : list B) :
  Forall (λ x, is_Some (f x)) l → length (omap f l) = length l.
Proof.
  induction 1 as [|x l [y Hy] _ IH]; [done|]. cbn. rewrite Hy. cbn. by rewrite IH.
Qed.

(** In a well-formed band-first raster every band has every pixel. *)
Lemma bands_total (a : array3 A) (b h w i j : nat) :
  wf3 a → shape3 a = (b, h, w) → i < h → j < w →
  Forall (λ band : list (list A), is_Some (row ← band !! i; row !! j)) (items3 a).
Proof.
  intros [_ Hrows] Hs Hi Hj. rewrite Hs in Hrows. cbn in Hrows.
  eapply Forall_impl; [exact Hrows|]. intros band [Hlen Hpx]. cbn in *.
  destruct (lookup_lt_is_Some_2 band i) as [row Hrow]; [lia|].
  rewrite Hrow. cbn. eapply Forall_lookup_1 in Hpx; [|exact Hrow].
  apply lookup_lt_is_Some_2. lia.
Qed.

Lemma shape3_transpose120 (a : array3 A) (b h w : nat) :
  shape3 a = (b, h, w) → shape3 (transpose120 a) = (h, w, b).
Proof. intros Hs. unfold transpose120. by rewrite Hs. Qed.

Lemma wf3_transpose120 (a : array3 A) : wf3 a → wf3 (transpose120 a).
Proof.
  intros Hwf. destruct (shape3 a) as [[b h] w] eqn:Hs.
  pose proof Hwf as [Hlen _]. rewrite Hs in Hlen. cbn in Hlen.
  unfold wf3, transpose120. rewrite Hs. cbn. split.
  - by rewrite length_fmap, length_seq.
  - apply Forall_fmap, Forall_forall. intros i Hi. apply elem_of_seq in Hi. cbn.
    split; [by rewrite length_fmap, length_seq|].
    apply Forall_fmap, Forall_forall. intros j Hj. apply elem_of_seq in Hj. cbn.
    rewrite length_omap_total; [done|].
    apply (bands_total a b h w); [done|done|lia|lia].
Qed.

(** X8.  [data.transpose(1, 2, 0)] turns a well-formed band-first raster
    of shape [(b, h, w)] into a well-formed raster of shape [(h, w, b)]
    with [img[i][j][c] = data[c][i][j]], and the transposition
    [(2, 0, 1)] of [__getitem__] undoes it. *)
Theorem transpose120_entries (a : array3 A) (b h w : nat) :
  wf3 a → shape3 a = (b, h, w) →
  shape3 (transpose120 a) = (h, w, b) ∧
  wf3 (transpose120 a) ∧
  (∀ i j c, i < h → j < w → get3 (transpose120 a) i j c = get3 a c i j) ∧
  shape3 (transpose201 (transpose120 a)) = shape3 a ∧
  (∀ c i j, c < b → i < h → j < w →
     get3 (transpose201 (transpose120 a)) c i j = get3 a c i j).
Proof.
  intros Hwf Hs.
  assert (∀ i j c, i < h → j < w → get3 (transpose120 a) i j c = get3 a c i j)
    as Hget.
  { intros i j c Hi Hj. unfold get3, transpose120. rewrite Hs. cbn.
    rewrite list_lookup_fmap, lookup_seq_lt by done. cbn.
    rewrite list_lookup_fmap, lookup_seq_lt by done. cbn.
    rewrite lookup_omap_total by by apply (bands_total a b h w).
    by destruct (items3 a !! c). }
  pose proof (wf3_transpose120 a Hwf) as Hwf'.
  pose proof (shape3_transpose120 a b h w Hs) as Hs'.
  split; [done|]. split; [done|]. split; [done|]. split.
  - rewrite (shape3_transpose201 _ h w b) by done. by rewrite Hs.
  - intros c i j Hc Hi Hj.
    rewrite (get3_transpose201 _ h w b); [by apply Hget|done| |done].
    apply wf3_pixels in Hwf'. by rewrite Hs' in Hwf'.
Qed.

End Transposition.

Section Sampling.
Context {pixel : Type}.
Variable as_float32 : pixel → pixel.

(** X9.  A sampler built on the transposed raster hands out the bands of
    the raster file: for [float32] values, channel [c] of the patch at the
    stored coordinate [(row, col)] is the window of band [c],
    [patch[c][dy][dx] = data[c][row - p + dy][col - p + dx]]. *)
Theorem getitem_reads_bands (data : array3 pixel) (gt : array2 Z)
    (hp : Sampler.hyperparams) (self : Sampler.Dataset) (b h w : nat) (i : Z) :
  wf3 data → wf2 gt → shape3 data = (b, h, w) → shape2 gt = (h, w) →
  (∀ c r k v, get3 data c r k = Some v → as_float32 v = v) →
  Sampler.init (transpose120 data) gt hp = Ok self →
  (0 ≤ i < Sampler.len self)%Z →
  ∃ (row col : nat) (patch : array3 pixel) (l : Z),
    Sampler.indices self !! Z.to_nat i = Some (row, col) ∧
    Sampler.getitem as_float32 self i = Ok (patch, l) ∧
    get2 gt row col = Some l ∧
    ∀ c dy dx : nat,
      c < b →
      (Z.of_nat dy < Sampler.hp_patch_size hp)%Z →
      (Z.of_nat dx < Sampler.hp_patch_size hp)%Z →
      is_Some (get3 patch c dy dx) ∧
      get3 patch c dy dx =
        get3 data c
          (Z.to_nat (Z.of_nat row - Sampler.hp_patch_size hp `div` 2 + Z.of_nat dy))
          (Z.to_nat (Z.of_nat col - Sampler.hp_patch_size hp `div` 2 + Z.of_nat dx)).
Proof.
  intros Hwf3 Hwf2 Hs3 Hs2 Hfloat Hinit Hi.
  destruct (SamplerMore.getitem_entries as_float32 (transpose120 data) gt hp self
              h w b i (wf3_transpose120 data Hwf3) Hwf2
              (shape3_transpose120 data b h w Hs3) Hs2 Hinit Hi)
    as (row & col & patch & l & Hidx & Hget & Hl & Hent).
  exists row, col, patch, l. split; [done|]. split; [done|]. split; [done|].
  intros c dy dx Hc Hdy Hdx.
  destruct (Hent c dy dx Hc Hdy Hdx) as (v & Hv & Hp).
  set (r' := Z.to_nat (Z.of_nat row - _ + Z.of_nat dy)) in *.
  set (c' := Z.to_nat (Z.of_nat col - _ + Z.of_nat dx)) in *.
  assert (r' < h ∧ c' < w) as [Hr' Hc'].
  { destruct (wf3_transpose120 data Hwf3) as [Hlen Hrows].
    rewrite (shape3_transpose120 data b h w Hs3) in Hlen, Hrows.
    cbn [fst snd] in Hlen, Hrows. unfold get3 in Hv.
    destruct (items3 (transpose120 data) !! r') as [rw|] eqn:Hrw;
      cbn [mbind option_bind] in Hv; try done.
    destruct (rw !! c') as [px|] eqn:Hpx; cbn [mbind option_bind] in Hv; try done.
    split.
    - rewrite <- Hlen. by eapply lookup_lt_Some.
    - eapply Forall_lookup_1 in Hrows as [Hlw _]; [|exact Hrw].
      rewrite <- Hlw. by eapply lookup_lt_Some. }
  assert (get3 (transpose120 data) r' c' c = get3 data c r' c') as Heq.
  { unfold get3, transpose120. rewrite Hs3. cbn.
    rewrite list_lookup_fmap, lookup_seq_lt by done. cbn.
    rewrite list_lookup_fmap, lookup_seq_lt by done. cbn.
    rewrite lookup_omap_total by by apply (bands_total data b h w).
    by destruct (items3 data !! c). }
  rewrite Heq in Hv. rewrite Hp, Hv, (Hfloat _ _ _ _ Hv). split; [by eexists|done].
Qed.

End Sampling.

Lemma slice_len_zero (n : nat) (hi : Z) :
  (0 ≤ hi)%Z → slice_len n 0 hi = Z.to_nat hi `min` n.
Proof.
  intros Hhi. unfold slice_len, slice_bounds.
  rewrite !decide_False by lia. lia.
Qed.

Lemma slice_zero {A} (n : nat) (hi : Z) (l : list A) :
  (0 ≤ hi)%Z → slice n 0 hi l = take (Z.to_nat hi `min` n) l.
Proof.
  intros Hhi. unfold slice, slice_bounds.
  rewrite !decide_False by lia. cbn [drop].
  replace (Z.to_nat (Z.min 0 (Z.of_nat n))) with 0 by lia.
  cbn [drop]. f_equal. lia.
Qed.

(** X17.  Loading gives the sampler what it needs: from a well-formed
    band-first raster of shape [(b, h, w)] and a well-formed [uint8]
    label image whose sides, cut at 1000, are [h] and [w], the cell
    produces a well-formed raster of shape [(h, w, b)] and a well-formed
    label image of shape [(h, w)]; inside the crop a pixel keeps its
    class up to renumbering, with an id no larger than before. *)
Theorem load_coregistered {A} (data : array3 A) (gt : array2 Z) (b h w : nat) :
  wf3 data → shape3 data = (b, h, w) →
  wf2 gt → (shape2 gt).1 `min` 1000 = h → (shape2 gt).2 `min` 1000 = w →
  (∀ r c v, get2 gt r c = Some v → (0 ≤ v < 256)%Z) →
  wf3 (load data gt).1 ∧ shape3 (load data gt).1 = (h, w, b) ∧
  wf2 (load data gt).2 ∧ shape2 (load data gt).2 = (h, w) ∧
  (∀ r c v, r < 1000 → c < 1000 → get2 gt r c = Some v →
     ∃ n, get2 (load data gt).2 r c = Some n ∧ (0 ≤ n ≤ v)%Z) ∧
  (∀ r1 c1 r2 c2 v1 v2,
     r1 < 1000 → c1 < 1000 → r2 < 1000 → c2 < 1000 →
     get2 gt r1 c1 = Some v1 → get2 gt r2 c2 = Some v2 →
     (get2 (load data gt).2 r1 c1 = get2 (load data gt).2 r2 c2 ↔ v1 = v2)).
Proof.
  intros Hwf3 Hs3 [Hlen Hrows] Hh Hw Hrange. unfold load. cbn [fst snd].
  destruct (shape2 gt) as [H W] eqn:Hs2. cbn in Hlen, Hrows, Hh, Hw.
  set (crop := slice2 gt 0 1000 0 1000).
  assert (Z.to_nat 1000 = 1000) as Hk by lia.
  assert (shape2 crop = (h, w)) as Hcs.
  { unfold crop, slice2. rewrite Hs2. cbn [shape2].
    rewrite !slice_len_zero by lia. rewrite Hk. f_equal; lia. }
  assert (items2 crop = take (1000 `min` W) <$> take (1000 `min` H) (items2 gt))
    as Hci.
  { unfold crop, slice2. rewrite Hs2. cbn [items2].
    rewrite slice_zero by lia. rewrite Hk. apply list_fmap_ext.
    intros i row _. rewrite slice_zero by lia. by rewrite Hk. }
  assert (∀ r c, r < 1000 → c < 1000 → get2 crop r c = get2 gt r c) as Hcg.
  { intros r c Hr Hc. unfold get2. rewrite Hci, list_lookup_fmap.
    destruct (decide (r < H)) as [HrH|HrH].
    - rewrite lookup_take_lt by lia.
      destruct (items2 gt !! r) as [row|] eqn:Hrow; cbn -[Nat.min take]; [|done].
      eapply Forall_lookup_1 in Hrows; [|exact Hrow]. cbn in Hrows.
      destruct (decide (c < W)) as [HcW|HcW].
      + by rewrite lookup_take_lt by lia.
      + rewrite lookup_take_ge by lia. symmetry. apply lookup_ge_None. lia.
    - rewrite lookup_take_ge by lia. cbn.
      rewrite (proj2 (lookup_ge_None (items2 gt) r)) by lia. done. }
  assert (wf2 crop) as Hcwf.
  { unfold wf2. rewrite Hcs, Hci. cbn -[Nat.min take]. split.
    - rewrite length_fmap, length_take. lia.
    - apply Forall_fmap, Forall_take.
      eapply Forall_impl; [exact Hrows|]. intros row Hrow. cbn -[Nat.min take] in *.
      rewrite length_take. lia. }
  assert (∀ r c v, get2 crop r c = Some v → (0 ≤ v < 256)%Z) as Hcr.
  { intros r c v Hv. unfold get2 in Hv. rewrite Hci, list_lookup_fmap in Hv.
    destruct (take _ (items2 gt) !! r) as [row|] eqn:Hrow;
      cbn -[Nat.min take] in Hv; [|done].
    apply lookup_take_Some in Hrow as [Hrow _].
    apply lookup_take_Some in Hv as [Hv _].
    apply (Hrange r c). unfold get2. by rewrite Hrow. }
  clearbody crop.
  split; [by apply wf3_transpose120|].
  split; [by apply shape3_transpose120|].
  split.
  { unfold relabel. rewrite foldl_assign_where_eq. destruct Hcwf as [Hl Hr].
    unfold wf2. cbn. split; [by rewrite length_fmap|].
    apply Forall_fmap. eapply Forall_impl; [exact Hr|]. intros row Hrow. cbn.
    by rewrite length_fmap. }
  split.
  { unfold relabel. by rewrite foldl_assign_where_eq. }
  split.
  - intros r c v Hr Hc Hv. rewrite <- Hcg in Hv by done.
    destruct (relabel_rank crop r c v Hcr Hv) as (k & _ & Hn & Hle).
    exists (Z.of_nat k). split; [done|]. lia.
  - intros r1 c1 r2 c2 v1 v2 Hr1 Hc1 Hr2 Hc2 Hv1 Hv2.
    rewrite <- Hcg in Hv1, Hv2 by done.
    pose proof (np_unique_sorted crop) as Hs.
    destruct (relabel_rank crop r1 c1 v1 Hcr Hv1) as (k1 & Hk1 & Hn1 & _).
    destruct (relabel_rank crop r2 c2 v2 Hcr Hv2) as (k2 & Hk2 & Hn2 & _).
    rewrite Hn1, Hn2. split.
    + intros [= Heq]. apply Nat2Z.inj in Heq. subst k2. congruence.
    + intros ->. by rewrite (sorted_lookup_inj _ k1 k2 v2 Hs Hk1 Hk2).
Qed.

Lemma labels_raw_uint8 (r c : nat) (v : Z) :
  get2 Extra.labels_raw r c = Some v → (0 ≤ v < 256)%Z.
Proof.
  destruct r as [|[|r]]; [| |discriminate];
    (destruct c as [|[|[|c]]]; [| | |discriminate]);
    intros H; injection H as <-; split; (discriminate || reflexivity).
Defined.

Lemma relabel_is_rank_witness :
  (∀ r c v, get2 Extra.labels_raw r c = Some v → (0 ≤ v < 256)%Z) ∧
  np_unique Extra.labels_raw = [0; 7; 20]%Z ∧
  shape2 (relabel Extra.labels_raw) = (2, 3) ∧
  ∃ k, np_unique Extra.labels_raw !! k = Some 20%Z ∧
       get2 (relabel Extra.labels_raw) 0 0 = Some (Z.of_nat k).
Proof.
  split; [exact labels_raw_uint8|]. split; [reflexivity|].
  destruct (relabel_is_rank Extra.labels_raw labels_raw_uint8)
    as (Hshape & _ & Hrank & _).
  split; [exact Hshape|]. exact (Hrank 0 0 20%Z eq_refl).
Defined.

Lemma relabel_preserves_classes_witness :
  (∀ r c v, get2 Extra.labels_raw r c = Some v → (0 ≤ v < 256)%Z) ∧
  get2 Extra.labels_raw 0 0 = Some 20%Z ∧ get2 Extra.labels_raw 0 2 = Some 7%Z ∧
  ∃ n1 n2 : Z,
    get2 (relabel Extra.labels_raw) 0 0 = Some n1 ∧
    get2 (relabel Extra.labels_raw) 0 2 = Some n2 ∧
    (n1 = n2 ↔ 20 = 7)%Z ∧ (n1 < n2 ↔ 20 < 7)%Z ∧ (0 ≤ n1 ≤ 20)%Z.
Proof.
  split; [exact labels_raw_uint8|]. split; [reflexivity|]. split; [reflexivity|].
  exact (relabel_preserves_classes Extra.labels_raw 0 0 0 2 20 7
           labels_raw_uint8 eq_refl eq_refl).
Defined.

Lemma relabel_idempotent_witness :
  (∀ r c v, get2 Extra.labels_raw r c = Some v → (0 ≤ v < 256)%Z) ∧
  relabel Extra.labels_raw = Array2 (2, 3) [[2; 0; 1]; [1; 2; 2]]%Z ∧
  relabel (relabel Extra.labels_raw) = relabel Extra.labels_raw.
Proof.
  split; [exact labels_raw_uint8|]. split; [reflexivity|].
  exact (relabel_idempotent Extra.labels_raw labels_raw_uint8).
Defined.

Lemma bands6_wf : wf3 Extra.bands6.
Proof. split; [reflexivity|]. vm_compute. repeat constructor. Defined.

Lemma transpose120_entries_witness :
  wf3 Extra.bands6 ∧ shape3 Extra.bands6 = (3, 6, 6) ∧
  shape3 (transpose120 Extra.bands6) = (6, 6, 3) ∧
  get3 (transpose120 Extra.bands6) 2 5 1 = get3 Extra.bands6 1 2 5 ∧
  get3 (transpose201 (transpose120 Extra.bands6)) 1 2 5 = get3 Extra.bands6 1 2 5.
Proof.
  split; [exact bands6_wf|]. split; [reflexivity|].
  destruct (transpose120_entries Extra.bands6 3 6 6 bands6_wf eq_refl)
    as (Hshape & _ & Hget & _ & Hback).
  split; [exact Hshape|]. split.
  - apply Hget; lia.
  - apply Hback; lia.
Defined.

Lemma getitem_reads_bands_witness :
  ∃ self : Sampler.Dataset,
    Sampler.init (transpose120 Extra.bands6) Examples.labels6
      (Sampler.Hyperparams 3 []) = Ok self ∧
    (0 ≤ 10 < Sampler.len self)%Z ∧
    ∃ (row col : nat) (patch : array3 Z) (l : Z),
      Sampler.indices self !! Z.to_nat 10 = Some (row, col) ∧
      Sampler.getitem (λ v : Z, v) self 10 = Ok (patch, l) ∧
      get2 Examples.labels6 row col = Some l ∧
      ∀ c dy dx : nat,
        c < 3 → (Z.of_nat dy < 3)%Z → (Z.of_nat dx < 3)%Z →
        is_Some (get3 patch c dy dx) ∧
        get3 patch c dy dx =
          get3 Extra.bands6 c (Z.to_nat (Z.of_nat row - 3 `div` 2 + Z.of_nat dy))
                              (Z.to_nat (Z.of_nat col - 3 `div` 2 + Z.of_nat dx)).
Proof.
  destruct (Sampler.init (transpose120 Extra.bands6) Examples.labels6
              (Sampler.Hyperparams 3 [])) as [self|e] eqn:Hinit.
  2:{ vm_compute in Hinit. discriminate Hinit. }
  exists self. split; [reflexivity|].
  assert (0 ≤ 10 < Sampler.len self)%Z as Hi.
  { vm_compute in Hinit. injection Hinit as <-. vm_compute.
    split; [discriminate|reflexivity]. }
  split; [exact Hi|].
  apply (getitem_reads_bands (λ v : Z, v) Extra.bands6 Examples.labels6
           (Sampler.Hyperparams 3 []) self 3 6 6 10).
  - exact bands6_wf.
  - split; [reflexivity|]. vm_compute. repeat constructor.
  - reflexivity.
  - reflexivity.
  - reflexivity.
  - exact Hinit.
  - exact Hi.
Defined.

Lemma load_coregistered_witness :
  shape3 (load Extra.bands23 Extra.labels_raw).1 = (2, 3, 1) ∧
  shape2 (load Extra.bands23 Extra.labels_raw).2 = (2, 3) ∧
  ∃ n, get2 (load Extra.bands23 Extra.labels_raw).2 0 2 = Some n ∧ (0 ≤ n ≤ 7)%Z.
Proof.
  destruct (load_coregistered Extra.bands23 Extra.labels_raw 1 2 3)
    as (_ & Hs3 & _ & Hs2 & Hv & _).
  - split; [reflexivity|]. vm_compute. repeat constructor.
  - reflexivity.
  - split; [reflexivity|]. vm_compute. repeat constructor.
  - reflexivity.
  - reflexivity.
  - exact labels_raw_uint8.
  - split; [exact Hs3|]. split; [exact Hs2|].
    apply (Hv 0 2 7%Z); [lia|lia|reflexivity].
Defined.

End LoadingFacts.

(** ** The kernel generator: parameters, failure of the reshape, and the
    synthesized kernels *)

Module GaborMore.

Import Gabor TorchFacts GaborFacts.

Section Facts.
Variable draw : nat → R.

(** The four parameter tensors of a constructed generator. *)
Lemma init_params (ic oc : nat) (ks : ksize) (opts : conv_options)
    (nth pos : nat) (g : GaborFilters) :
  init draw ic oc ks opts nth pos = Ok g →
  let s := [oc `div` (oc `div` 16); 1; ic; 1; 1] in
  ∃ u1 u2 u3 u4 : list nat → R,
    (∀ idx, (∃ n, u1 idx = draw n) ∧ (∃ n, u2 idx = draw n) ∧
            (∃ n, u3 idx = draw n) ∧ (∃ n, u4 idx = draw n)) ∧
    lambda_ g = Tensor s (λ idx, (1 / 10 + u1 idx * 32)%R) ∧
    psi g = Tensor s (λ idx, (u2 idx * PI / 2)%R) ∧
    sigma g = Tensor s (λ idx, (1 / 10 + u3 idx * 10)%R) ∧
    gamma g = Tensor s u4.
Proof.
  intros Hg. pose proof (init_inversion draw _ _ _ _ _ _ _ Hg) as (Hoc & _).
  revert Hg. unfold init.
  assert (oc `div` 16 ≠ 0) as Hn.
  { pose proof (Nat.div_le_lower_bound oc 16 1). lia. }
  rewrite floordiv_ok by done. cbn. intros [= <-]. cbn.
  eexists _, _, _, _. split; [|repeat split; reflexivity].
  intros idx. cbn. eauto 10.
Qed.

(** The entries of the synthesized bank (no assumption on the parity of
    the kernel size). *)
Lemma bank_entries (ic oc : nat) (ks : ksize) (k : nat) (opts : conv_options)
    (nth pos : nat) (g : GaborFilters) :
  init draw ic oc ks opts nth pos = Ok g →
  super_init ks = (k, k) →
  oc `mod` (oc `div` 16) = 0 →
  ∃ bank,
    gabor_filter g = Ok bank ∧
    shape bank = [oc; ic; k; k] ∧
    ∀ a t c i j : nat,
      a < oc `div` (oc `div` 16) → t < oc `div` 16 → c < ic → i < k → j < k →
      at_ bank [a * (oc `div` 16) + t; c; i; j]
      = gb_entry (x_rot (at_ (axis k) [i]) (at_ (axis k) [j]) (at_ (thetas g) [t]))
                 (y_rot (at_ (axis k) [i]) (at_ (axis k) [j]) (at_ (thetas g) [t]))
                 (at_ (lambda_ g) [a; 0; c; 0; 0]) (at_ (psi g) [a; 0; c; 0; 0])
                 (at_ (sigma g) [a; 0; c; 0; 0]) (at_ (gamma g) [a; 0; c; 0; 0]).
Proof.
  intros Hg Hks Hdiv.
  apply init_inversion in Hg as (Hoc & Hic & Hout & Hk & Hn & _ & Hshape).
  rewrite Hks in Hk.
  set (n := oc `div` 16) in *.
  assert (n ≠ 0) as Hn0.
  { subst n. pose proof (Nat.div_le_lower_bound oc 16 1). lia. }
  assert (oc `div` n * n = oc) as Hgn.
  { pose proof (Nat.Div0.div_exact oc n) as [_ He]. specialize (He Hdiv). lia. }
  clearbody n. set (G := oc `div` n) in *. clearbody G.
  rewrite <- Hgn in Hout |- *. clear Hgn Hoc Hdiv.
  unfold gabor_filter, view. rewrite Hk, Hshape, Hn, Hic, Hout.
  cbn [fst snd hd shape].
  rewrite decide_True by (cbn; ring).
  eexists. split; [reflexivity|]. split; [done|].
  intros a t c i j Ha Ht Hc Hi Hj. cbn [at_ shape].
  rewrite (proj2 (ravel_merge a n t [ic; k; k] [c; i; j]) G).
  rewrite unravel_ravel by (repeat constructor; done).
  done.
Qed.

(** X10.  With draws of [torch.rand] in [[0, 1)], the parameters of a new
    generator lie in their initialisation ranges: wavelength in
    [[0.1, 32.1)], phase in [[0, pi/2)], scale in [[0.1, 10.1)] and aspect
    ratio in [[0, 1)]; in particular wavelength and scale, by which the
    kernel formula divides, are positive.  All four tensors have the shape
    [(out_channels // n_thetas, 1, in_channels, 1, 1)]. *)
Theorem init_parameter_ranges (ic oc : nat) (ks : ksize) (opts : conv_options)
    (nth pos : nat) (g : GaborFilters) :
  (∀ n, (0 <= draw n < 1)%R) →
  init draw ic oc ks opts nth pos = Ok g →
  (shape (lambda_ g) = [oc `div` (oc `div` 16); 1; ic; 1; 1] ∧
   shape (psi g) = shape (lambda_ g) ∧ shape (sigma g) = shape (lambda_ g) ∧
   shape (gamma g) = shape (lambda_ g)) ∧
  ∀ idx : list nat,
    (1 / 10 <= at_ (lambda_ g) idx < 1 / 10 + 32)%R ∧
    (0 <= at_ (psi g) idx < PI / 2)%R ∧
    (1 / 10 <= at_ (sigma g) idx < 1 / 10 + 10)%R ∧
    (0 <= at_ (gamma g) idx < 1)%R.
Proof.
  intros Hdraw Hg.
  destruct (init_params _ _ _ _ _ _ _ Hg) as (u1 & u2 & u3 & u4 & Hu & -> & -> & -> & ->).
  cbn. split; [done|]. intros idx.
  destruct (Hu idx) as ((n1 & ->) & (n2 & ->) & (n3 & ->) & (n4 & ->)).
  pose proof (Hdraw n1). pose proof (Hdraw n2). pose proof (Hdraw n3).
  pose proof (Hdraw n4). pose proof PI_RGT_0.
  repeat split; try lra; nra.
Qed.

(** X11.  A generator that was constructed can still fail at synthesis:
    for a square kernel and at least one input channel, [gabor_filter]
    raises [RuntimeError] at its final [view] exactly when the orientation
    count [out_channels // 16] does not divide [out_channels], and returns
    a bank otherwise. *)
Theorem gabor_filter_fails_iff_indivisible (ic oc : nat) (ks : ksize) (k : nat)
    (opts : conv_options) (nth pos : nat) (g : GaborFilters) :
  init draw ic oc ks opts nth pos = Ok g →
  super_init ks = (k, k) → 0 < ic → 0 < k →
  (gabor_filter g = Raise RuntimeError ↔ oc `mod` (oc `div` 16) ≠ 0) ∧
  (succeeds (gabor_filter g) ↔ oc `mod` (oc `div` 16) = 0).
Proof.
  intros Hg Hks Hic0 Hk0.
  apply init_inversion in Hg as (Hoc & Hic & Hout & Hk & Hn & _ & Hshape).
  rewrite Hks in Hk.
  set (n := oc `div` 16) in *.
  assert (n ≠ 0) as Hn0.
  { subst n. pose proof (Nat.div_le_lower_bound oc 16 1). lia. }
  assert (oc `mod` n = 0 ↔ oc `div` n * n = oc) as Hex.
  { rewrite <- (Nat.Div0.div_exact oc n). lia. }
  unfold gabor_filter, view. rewrite Hk, Hshape, Hn, Hic, Hout.
  cbn [fst snd hd shape].
  clearbody n. set (G := oc `div` n) in *. clearbody G.
  assert (numel [G; n; ic; k; k] = numel [oc; ic; k; k] ↔ G * n = oc) as Hnum.
  { cbn. split; [|intros H; rewrite <- H; ring]. intros H.
    assert (G * n * (ic * (k * k)) = oc * (ic * (k * k))) as H' by lia.
    apply Nat.mul_cancel_r in H'; [done|]. nia. }
  case_decide as Hd.
  - split; split; try done.
    + intros Hne. apply Hnum, Hex in Hd. done.
    + intros _. by apply Hex, Hnum.
    + intros _. by eexists.
  - split; split; try done.
    + intros _ Hz. by apply Hex, Hnum in Hz.
    + intros [b Hb]. done.
    + intros Hz. by apply Hex, Hnum in Hz.
Qed.


(** X13.  With draws of [torch.rand] in [[0, 1)], every entry of the bank
    synthesized from the initial parameters lies between [-1] and [1]. *)
Theorem initial_bank_bounded (ic oc : nat) (ks : ksize) (k : nat)
    (opts : conv_options) (nth pos : nat) (g : GaborFilters) :
  (∀ n, (0 <= draw n < 1)%R) →
  init draw ic oc ks opts nth pos = Ok g →
  super_init ks = (k, k) →
  oc `mod` (oc `div` 16) = 0 →
  ∃ bank,
    gabor_filter g = Ok bank ∧
    ∀ a t c i j : nat,
      a < oc `div` (oc `div` 16) → t < oc `div` 16 → c < ic → i < k → j < k →
      (-1 <= at_ bank [(a * (oc `div` 16) + t)%nat; c; i; j] <= 1)%R.
Proof.
  intros Hdraw Hg Hks Hdiv.
  destruct (bank_entries ic oc ks k opts nth pos g Hg Hks Hdiv)
    as (bank & Hbank & _ & Hent).
  exists bank. split; [done|]. intros a t c i j Ha Ht Hc Hi Hj.
  rewrite (Hent a t c i j) by done. unfold gb_entry.
  destruct (init_params _ _ _ _ _ _ _ Hg)
    as (u1 & u2 & u3 & u4 & Hu & _ & _ & Hsig & _).
  set (x_ := x_rot _ _ _). set (y_ := y_rot _ _ _).
  set (sig := at_ (sigma g) _). set (gam := at_ (gamma g) _).
  assert (0 < sig)%R as Hsigpos.
  { unfold sig. rewrite Hsig. cbn.
    destruct (Hu [a; 0; c; 0; 0]) as (_ & _ & (n3 & ->) & _).
    pose proof (Hdraw n3). lra. }
  set (q := ((x_ ^ 2 + gam ^ 2 * y_ ^ 2) / sig ^ 2)%R).
  assert (0 <= q)%R as Hq.
  { unfold q. apply Rmult_le_pos.
    - pose proof (pow2_ge_0 x_). pose proof (pow2_ge_0 y_).
      pose proof (pow2_ge_0 gam). nra.
    - apply Rlt_le, Rinv_0_lt_compat. nra. }
  clearbody q.
  assert (0 < exp (- (1 / 2) * q) <= 1)%R as He.
  { split; [apply exp_pos|].
    apply Rle_trans with (exp 0); [|rewrite exp_0; lra].
    destruct Hq as [Hq|Hq].
    - left. apply exp_increasing. lra.
    - right. f_equal. rewrite <- Hq. ring. }
  pose proof (COS_bound (2 * PI * x_ / at_ (lambda_ g) [a; 0; c; 0; 0]
                         + at_ (psi g) [a; 0; c; 0; 0])) as Hcos.
  set (e := exp _) in *. set (co := cos _) in *. clearbody e co. nra.
Qed.

End Facts.

Lemma draw_half_range (n : nat) : (0 <= Examples.draw_half n < 1)%R.
Proof. unfold Examples.draw_half. lra. Defined.

Lemma init_parameter_ranges_witness :
  (∀ n, (0 <= Examples.draw_half n < 1)%R) ∧
  ∃ g, Gabor.init Examples.draw_half 3 64 (KInt 11) default_options 5 0 = Ok g ∧
       shape (lambda_ g) = [64 `div` (64 `div` 16); 1; 3; 1; 1] ∧
       (1 / 10 <= at_ (sigma g) (replicate 5 0%nat) < 1 / 10 + 10)%R.
Proof.
  split; [exact draw_half_range|].
  destruct (init_ok Examples.draw_half 3 64 (KInt 11) default_options 5 0)
    as (g & Hg & _); [lia|].
  exists g. split; [exact Hg|].
  destruct (init_parameter_ranges Examples.draw_half 3 64 (KInt 11) default_options
              5 0 g draw_half_range Hg) as [[Hshape _] Hr].
  split; [exact Hshape|]. exact (proj1 (proj2 (proj2 (Hr (replicate 5 0))))).
Defined.

Lemma gabor_filter_fails_iff_indivisible_witness :
  ∃ g, Gabor.init Examples.draw_half 3 50 (KInt 11) default_options 5 0 = Ok g ∧
       super_init (KInt 11) = (11, 11) ∧ 0 < 3 ∧ 0 < 11 ∧
       50 `mod` (50 `div` 16) ≠ 0 ∧
       gabor_filter g = Raise RuntimeError.
Proof.
  destruct (init_ok Examples.draw_half 3 50 (KInt 11) default_options 5 0)
    as (g & Hg & _); [lia|].
  exists g. split; [exact Hg|]. split; [reflexivity|].
  assert (0 < 3) as H3 by lia. assert (0 < 11) as H11 by lia.
  assert (50 `mod` (50 `div` 16) ≠ 0) as Hne by (vm_compute; discriminate).
  split; [exact H3|]. split; [exact H11|]. split; [exact Hne|].
  exact (proj2 (proj1 (gabor_filter_fails_iff_indivisible Examples.draw_half 3 50
                         (KInt 11) 11 default_options 5 0 g Hg eq_refl H3 H11)) Hne).
Defined.


Lemma initial_bank_bounded_witness :
  (∀ n, (0 <= Examples.draw_half n < 1)%R) ∧
  ∃ g bank,
    Gabor.init Examples.draw_half 3 64 (KInt 11) default_options 5 0 = Ok g ∧
    super_init (KInt 11) = (11, 11) ∧ 64 `mod` (64 `div` 16) = 0 ∧
    gabor_filter g = Ok bank ∧
    (-1 <= at_ bank [(0 * (64 `div` 16) + 0)%nat; 0%nat; 0%nat; 0%nat] <= 1)%R.
Proof.
  split; [exact draw_half_range|].
  destruct (init_ok Examples.draw_half 3 64 (KInt 11) default_options 5 0)
    as (g & Hg & _); [lia|].
  destruct (initial_bank_bounded Examples.draw_half 3 64 (KInt 11) 11
              default_options 5 0 g draw_half_range Hg eq_refl eq_refl)
    as (bank & Hbank & Hent).
  exists g, bank. split; [exact Hg|]. split; [reflexivity|]. split; [reflexivity|].
  split; [exact Hbank|].
  apply (Hent 0 0 0 0 0); vm_compute; lia.
Defined.

End GaborMore.

(** ** The networks *)

Module NetsFacts.

Import Nets.

#[local] Ltac Zify.zify_post_hook ::= Z.to_euclidean_division_equations.

(** The loop of [n_params] adds up the element counts. *)
Lemma foldl_add_numel (ss : list (list N)) (n : N) :
  foldl (λ (n : N) (s : list N), (n + numel s)%N) n ss
  = (n + foldr N.add 0 (numel <$> ss))%N.
Proof.
  revert n. induction ss as [|s ss IH]; intros n; cbn; [lia|].
  rewrite IH. lia.
Qed.

(** X14.  [n_params] counts [57 003 840 + 4097 * num_classes] parameters
    in [AlexNet] and [25 057 + 33 * num_classes] in [TinyAlexNet], whatever
    the dropout rate; it is additive over the three parts of a network. *)
Theorem n_params_of_the_networks (num_classes : N) (dropout_rate : R) :
  n_params (AlexNet num_classes dropout_rate)
  = (57003840 + 4097 * num_classes)%N ∧
  n_params (TinyAlexNet num_classes dropout_rate)
  = (25057 + 33 * num_classes)%N ∧
  ∀ model : net,
    n_params model
    = (foldr N.add 0 (numel <$> (features model ≫= layer_parameters))
       + foldr N.add 0 (numel <$> layer_parameters (avgpool model))
       + foldr N.add 0 (numel <$> (classifier model ≫= layer_parameters)))%N.
Proof.
  split; [|split].
  - unfold n_params. rewrite foldl_add_numel.
    cbn [parameters AlexNet features avgpool classifier app mbind list_bind
         layer_parameters fmap list_fmap numel foldr].
    lia.
  - unfold n_params. rewrite foldl_add_numel.
    cbn [parameters TinyAlexNet features avgpool classifier app mbind list_bind
         layer_parameters fmap list_fmap numel foldr].
    lia.
  - intros model. unfold n_params, parameters. rewrite foldl_add_numel.
    rewrite !bind_app, !fmap_app, !foldr_app. cbn [mbind list_bind].
    rewrite app_nil_r.
    assert (∀ (l : list N) (a : N),
              foldr N.add a l = (foldr N.add 0 l + a)%N) as Hsum.
    { intros l a. induction l as [|x l IH]; cbn; [lia|]. rewrite IH. lia. }
    rewrite (Hsum _ (foldr N.add _ _)), (Hsum _ (foldr N.add _ _)). lia.
Qed.

(** A window either does not fit, or yields the output size [o] with
    [stride * (o - 1) <= size + 2 pad - k < stride * o]. *)
Lemma window_out_cases (size k stride pad : N) :
  (stride ≠ 0)%N →
  ((size + 2 * pad < k)%N ∧ window_out size k stride pad = Raise RuntimeError) ∨
  (∃ o : N,
     (k + stride * o ≤ size + 2 * pad + stride ∧ size + 2 * pad < k + stride * o ∧
      1 ≤ o)%N ∧
     window_out size k stride pad = Ok o).
Proof.
  intros Hs. unfold window_out.
  destruct (decide (size + 2 * pad < k)%N) as [Hlt|Hge].
  - left. split; [done|]. rewrite decide_True; [done|by right].
  - right. eexists. split; [|rewrite decide_False; [done|]; lia].
    set (d := (size + 2 * pad - k)%N).
    pose proof (N.Div0.mul_div_le d stride) as Hle.
    pose proof (N.mul_succ_div_gt d stride Hs) as Hgt.
    assert (size + 2 * pad = k + d)%N as -> by (unfold d; lia).
    clearbody d. set (q := (d `div` stride)%N) in *. clearbody q.
    rewrite N.mul_add_distr_l. lia.
Qed.

Ltac step_window :=
  match goal with
  | |- context [window_out ?s ?k ?st ?p] =>
      let o := fresh "o" in
      let H := fresh "Hwin" in
      let E := fresh "E" in
      destruct (window_out_cases s k st p) as [[H E]|(o & H & E)];
      [done| |]; rewrite E; clear E
  end.

Ltac run_layers :=
  repeat first
    [ progress cbn [mbind result_bind layer4 layer2 flatten1 foldl]
    | step_window
    | case_decide ].

(** X15.  [AlexNet.forward] maps a batch of [n] images with [c] channels
    and [h] x [w] pixels to [n] rows of [num_classes] scores exactly when
    [c = 3], [h >= 63] and [w >= 63]; on any other 4-D input a layer
    raises [RuntimeError].  The adaptive pooling makes the [256 * 6 * 6]
    inputs of the classifier fit for every such size. *)
Theorem AlexNet_forward_shape (num_classes : N) (dropout_rate : R) (n c h w : N) :
  AlexNet_forward (AlexNet num_classes dropout_rate) (n, c, h, w)
  = if decide (c = 3 ∧ 63 ≤ h ∧ 63 ≤ w)%N then Ok (n, num_classes)
    else Raise RuntimeError.
Proof.
  unfold AlexNet_forward, AlexNet, sequential.
  cbn [features avgpool classifier].
  destruct (decide (c = 3 ∧ 63 ≤ h ∧ 63 ≤ w)%N) as [Hc|Hc];
    run_layers; first [done | exfalso; lia].
Qed.

(** X16.  [TinyAlexNet.forward], which flattens the feature maps without
    adaptive pooling, accepts a batch of [3]-channel images exactly when
    the two pooled sides multiply to the [4] inputs of its classifier: for
    square images, exactly the sides from [47] to [62], the patch size
    [51] of the notebook among them.  On any other 4-D input a layer
    raises [RuntimeError]. *)
Theorem TinyAlexNet_forward_shape (num_classes : N) (dropout_rate : R)
    (n c h w : N) :
  TinyAlexNet_forward (TinyAlexNet num_classes dropout_rate) (n, c, h, w)
  = if decide (c = 3 ∧ ((47 ≤ h ≤ 62 ∧ 47 ≤ w ≤ 62) ∨
                        (31 ≤ h ≤ 46 ∧ 79 ≤ w ≤ 94) ∨
                        (79 ≤ h ≤ 94 ∧ 31 ≤ w ≤ 46)))%N
    then Ok (n, num_classes) else Raise RuntimeError.
Proof.
  unfold TinyAlexNet_forward, TinyAlexNet, sequential.
  cbn [features avgpool classifier].
  destruct (decide (c = 3 ∧ ((47 ≤ h ≤ 62 ∧ 47 ≤ w ≤ 62) ∨
                             (31 ≤ h ≤ 46 ∧ 79 ≤ w ≤ 94) ∨
                             (79 ≤ h ≤ 94 ∧ 31 ≤ w ≤ 46)))%N) as [Hc|Hc];
    run_layers; try done; exfalso; try lia.
  - (* accepted sizes, yet the classifier would reject the flattened maps *)
    match goal with H : (1 * ?a * ?b)%N ≠ 4%N |- _ =>
      destruct Hc as [_ [Hc|[Hc|Hc]]];
      [ assert (a = 2 ∧ b = 2)%N as [-> ->] by lia
      | assert (a = 1 ∧ b = 4)%N as [-> ->] by lia
      | assert (a = 4 ∧ b = 1)%N as [-> ->] by lia ];
      by apply H
    end.
  - (* the classifier accepts, so the sizes are among the accepted ones *)
    match goal with H : (1 * ?a * ?b)%N = 4%N |- _ =>
      assert (a ≤ 4)%N by nia;
      assert (a = 1 ∨ a = 2 ∨ a = 3 ∨ a = 4)%N as Ha by lia;
      assert ((a = 1 ∧ b = 4) ∨ (a = 2 ∧ b = 2) ∨ (a = 4 ∧ b = 1))%N as Hab
        by (destruct Ha as [Ha|[Ha|[Ha|Ha]]]; rewrite Ha in H; lia);
      clear H Ha
    end.
    apply Hc. split; [done|]. lia.
Qed.

End NetsFacts.

(** ** From the sampler to the network *)

Module PipelineFacts.

Import Sampler SamplerFacts NumpyFacts PyFacts Nets NetsFacts.
Import Loading LoadingFacts.

#[local] Ltac Zify.zify_post_hook ::= Z.to_euclidean_division_equations.

Section Facts.
Context {pixel : Type}.
Variable as_float32 : pixel → pixel.
Implicit Types (data : array3 pixel) (gt : array2 Z) (hp : hyperparams).
Implicit Types (self : @Dataset pixel).

(** The shape of a returned patch: channels first, then the two sides
    of the window. *)
Lemma getitem_shape data gt hp self (h w ch : nat) (i : Z)
    (patch : array3 pixel) (l : Z) :
  wf2 gt → shape3 data = (h, w, ch) → shape2 gt = (h, w) →
  (0 ≤ hp_patch_size hp)%Z →
  init data gt hp = Ok self →
  getitem as_float32 self i = Ok (patch, l) →
  shape3 patch = (ch, Z.to_nat (hp_patch_size hp), Z.to_nat (hp_patch_size hp)).
Proof.
  intros Hwf2 Hs3 Hs2 Hps Hinit Hget.
  assert (0 ≤ i < len self)%Z as Hi.
  { destruct (decide (0 ≤ i < len self)%Z) as [|Hno]; [done|].
    unfold getitem in Hget. rewrite coordinate_out_of_range in Hget by lia.
    discriminate Hget. }
  destruct (getitem_in_range as_float32 data gt hp self i Hinit Hi)
    as (row & col & l' & Hidx & Hl & _ & Hget').
  rewrite Hget' in Hget. injection Hget as <- <-.
  destruct (indices_bounds data gt hp self row col Hinit Hwf2) as (Hr & Hc & Hfit).
  { apply list_elem_of_lookup. eauto. }
  rewrite Hs2 in Hr, Hc. rewrite Hs3 in Hfit. cbn in Hr, Hc, Hfit.
  set (ps := hp_patch_size hp) in *. set (p := (ps `div` 2)%Z) in *.
  assert (ps = 2 * p + ps `mod` 2 ∧ 0 ≤ ps `mod` 2 < 2)%Z as [Hdm Hmod].
  { split; [apply Z.div_mod; lia|apply Z.mod_pos_bound; lia]. }
  unfold astype3. cbn [shape3].
  rewrite (shape3_transpose201 _ (slice_len h (Z.of_nat row - p) (Z.of_nat row - p + ps))
             (slice_len w (Z.of_nat col - p) (Z.of_nat col - p + ps)) ch).
  2:{ cbn. by apply shape3_slice3. }
  destruct (decide (ps = 0%Z)) as [Hz|Hnz].
  - rewrite Hz, !Z.add_0_r, !slice_len_empty. done.
  - assert (0 ≤ Z.of_nat row - p ∧ Z.of_nat row - p + ps ≤ Z.of_nat h ∧
            0 ≤ Z.of_nat col - p ∧ Z.of_nat col - p + ps ≤ Z.of_nat w)%Z as Hin.
    { destruct (decide (p > 0)%Z) as [Hp|Hp]; [specialize (Hfit Hp)|]; lia. }
    rewrite !slice_len_inside by lia. repeat f_equal; lia.
Qed.

(** X18.  The patches of the sampler and the small network: a batch of
    [n] patches drawn with [patch_size] from a raster with [ch] channels
    goes through [TinyAlexNet.forward] exactly when [ch = 3] and
    [47 <= patch_size <= 62]; with any other patch size or channel count
    a layer raises [RuntimeError]. *)
Theorem patches_fit_TinyAlexNet data gt hp self (h w ch : nat) (i : Z)
    (patch : array3 pixel) (l : Z) (n num_classes : N) (dropout_rate : R) :
  wf2 gt → shape3 data = (h, w, ch) → shape2 gt = (h, w) →
  (0 ≤ hp_patch_size hp)%Z →
  init data gt hp = Ok self →
  getitem as_float32 self i = Ok (patch, l) →
  TinyAlexNet_forward (TinyAlexNet num_classes dropout_rate)
    (n, N.of_nat (shape3 patch).1.1, N.of_nat (shape3 patch).1.2,
     N.of_nat (shape3 patch).2)
  = if decide (ch = 3 ∧ (47 ≤ hp_patch_size hp ≤ 62)%Z)
    then Ok (n, num_classes) else Raise RuntimeError.
Proof.
  intros Hwf2 Hs3 Hs2 Hps Hinit Hget.
  rewrite (getitem_shape data gt hp self h w ch i patch l) by done.
  cbn [fst snd].
  set (ps := hp_patch_size hp) in *. clearbody ps.
  set (s := N.of_nat (Z.to_nat ps)).
  assert (Z.of_N s = ps) as Hs by (unfold s; lia). clearbody s.
  set (c := N.of_nat ch).
  assert (c = 3%N ↔ ch = 3) as Hc by (unfold c; lia). clearbody c.
  unfold TinyAlexNet_forward, TinyAlexNet, sequential.
  cbn [features avgpool classifier].
  destruct (decide (ch = 3 ∧ (47 ≤ ps ≤ 62)%Z)) as [Hyes|Hno];
    run_layers; try done; exfalso; try lia.
  - (* the two sides are pooled to the same size, which is 2 *)
    match goal with H : (1 * ?a * ?a)%N ≠ 4%N |- _ =>
      assert (a = 2)%N as Ha by lia; rewrite Ha in H; by apply H
    end.
  - match goal with H : (1 * ?a * ?a)%N = 4%N |- _ =>
      assert (a = 2)%N by nia; clear H
    end.
    apply Hno. split; lia.
Qed.

(** X19.  The labels of the training loop: when the sampler is built on
    the renumbered label image with [ignored_labels = [0]], every label
    it returns, once shifted by [label - 1] as the loop does, is a class
    index in [[0, K - 1)], where [K] is the number of distinct values of
    the label image. *)
Theorem shifted_labels_are_class_indices data (gt0 : array2 Z) (patch_size : Z)
    self (i : Z) (patch : array3 pixel) (l : Z) :
  (∀ r c v, get2 gt0 r c = Some v → (0 ≤ v < 256)%Z) →
  init data (relabel gt0) (Hyperparams patch_size [0%Z]) = Ok self →
  getitem as_float32 self i = Ok (patch, l) →
  (0 ≤ l - 1 < Z.of_nat (length (np_unique gt0)) - 1)%Z.
Proof.
  intros Hrange Hinit Hget.
  assert (0 ≤ i < len self)%Z as Hi.
  { destruct (decide (0 ≤ i < len self)%Z) as [|Hno]; [done|].
    unfold getitem in Hget. rewrite coordinate_out_of_range in Hget by lia.
    discriminate Hget. }
  destruct (getitem_in_range as_float32 data _ _ self i Hinit Hi)
    as (row & col & l' & _ & Hl & Hign & Hget').
  rewrite Hget' in Hget. injection Hget as _ <-. cbn in Hign.
  rewrite get2_relabel in Hl.
  destruct (get2 gt0 row col) as [v|] eqn:Hv; [|discriminate Hl].
  destruct (relabel_rank gt0 row col v Hrange Hv) as (k & Hk & Hn & _).
  rewrite get2_relabel, Hv in Hn. rewrite Hn in Hl. injection Hl as <-.
  apply lookup_lt_Some in Hk.
  assert (Z.of_nat k ≠ 0%Z) as Hnz.
  { intros Hz. apply Hign. rewrite Hz. by left. }
  lia.
Qed.

End Facts.

Lemma patches_fit_TinyAlexNet_witness :
  ∃ (self : Sampler.Dataset) (patch : array3 Z) (l : Z),
    init Extra.image47 Extra.labels47 (Hyperparams 47 []) = Ok self ∧
    getitem (λ v : Z, v) self 0 = Ok (patch, l) ∧
    TinyAlexNet_forward (TinyAlexNet 2 0)
      (256%N, N.of_nat (shape3 patch).1.1, N.of_nat (shape3 patch).1.2,
       N.of_nat (shape3 patch).2) = Ok (256%N, 2%N).
Proof.
  destruct (init Extra.image47 Extra.labels47 (Hyperparams 47 []))
    as [self|e] eqn:Hinit.
  2:{ vm_compute in Hinit. discriminate Hinit. }
  destruct (getitem (λ v : Z, v) self 0) as [[patch l]|e] eqn:Hget.
  2:{ vm_compute in Hinit. injection Hinit as <-. vm_compute in Hget.
      discriminate Hget. }
  exists self, patch, l. split; [reflexivity|]. split; [exact Hget|].
  rewrite (patches_fit_TinyAlexNet (λ v : Z, v) Extra.image47 Extra.labels47
             (Hyperparams 47 []) self 47 47 3 0 patch l 256 2 0).
  - reflexivity.
  - split; [reflexivity|]. vm_compute. repeat constructor.
  - reflexivity.
  - reflexivity.
  - cbn. lia.
  - exact Hinit.
  - exact Hget.
Defined.

Lemma shifted_labels_are_class_indices_witness :
  ∃ (self : Sampler.Dataset) (patch : array3 Z) (l : Z),
    init (transpose120 Extra.bands23) (relabel Extra.labels_raw)
      (Hyperparams 1 [0%Z]) = Ok self ∧
    getitem (λ v : Z, v) self 0 = Ok (patch, l) ∧
    (0 ≤ l - 1 < Z.of_nat (length (np_unique Extra.labels_raw)) - 1)%Z.
Proof.
  destruct (init (transpose120 Extra.bands23) (relabel Extra.labels_raw)
              (Hyperparams 1 [0%Z])) as [self|e] eqn:Hinit.
  2:{ vm_compute in Hinit. discriminate Hinit. }
  destruct (getitem (λ v : Z, v) self 0) as [[patch l]|e] eqn:Hget.
  2:{ vm_compute in Hinit. injection Hinit as <-. vm_compute in Hget.
      discriminate Hget. }
  exists self, patch, l. split; [reflexivity|]. split; [exact Hget|].
  exact (shifted_labels_are_class_indices (λ v : Z, v)
           (transpose120 Extra.bands23) Extra.labels_raw 1 self 0 patch l
           labels_raw_uint8 Hinit Hget).
Defined.

End PipelineFacts.
